(** * Address book assistant (src/main.py): shallow embedding and properties

    The development follows the layout of the program: text and the library
    services the program calls ([re], [datetime]), the field classes
    ([Name], [Phone], [Birthday]), [Record], [AddressBook], the command
    handlers with the [input_error] decorator, and one turn of the command
    loop of [main]. *)

From Stdlib Require Import ZArith List String Ascii Lia Bool DecimalString.
From stdpp Require Import base list.
Import ListNotations.

Local Open Scope Z_scope.

(** ** Text

    A Python [str] is a sequence of Unicode code points. *)

Definition char := N.
Definition str := list char.

(** A literal of the program text. *)
Definition lit (s : string) : str := map N_of_ascii (list_ascii_of_string s).

Module Unicode.

(** First code point of every run of ten decimal digits (general category
    Nd, Unicode 14).  The regular expression class [\d] and [int()] accept
    exactly these characters on [str] input; '0'..'9' is the first run. *)
Definition decimal_zeros : list N :=
  [ 0x30; 0x660; 0x6f0; 0x7c0; 0x966; 0x9e6; 0xa66; 0xae6; 0xb66; 0xbe6;
    0xc66; 0xce6; 0xd66; 0xde6; 0xe50; 0xed0; 0xf20; 0x1040; 0x1090;
    0x17e0; 0x1810; 0x1946; 0x19d0; 0x1a80; 0x1a90; 0x1b50; 0x1bb0;
    0x1c40; 0x1c50; 0xa620; 0xa8d0; 0xa900; 0xa9d0; 0xa9f0; 0xaa50;
    0xabf0; 0xff10; 0x104a0; 0x10d30; 0x11066; 0x110f0; 0x11136; 0x111d0;
    0x112f0; 0x11450; 0x114d0; 0x11650; 0x116c0; 0x11730; 0x118e0;
    0x11950; 0x11c50; 0x11d50; 0x11da0; 0x16a60; 0x16ac0; 0x16b50;
    0x1d7ce; 0x1d7d8; 0x1d7e2; 0x1d7ec; 0x1d7f6;
    0x1e140; 0x1e2f0; 0x1e950; 0x1fbf0 ]%N.

Fixpoint decimal_in (zs : list N) (c : char) : option N :=
  match zs with
  | [] => None
  | z :: zs' =>
      if ((z <=? c) && (c <? z + 10))%N then Some (c - z)%N
      else decimal_in zs' c
  end.

(** [unicodedata.decimal]: the value of a decimal digit. *)
Definition decimal (c : char) : option N := decimal_in decimal_zeros c.

(** [str.isdecimal] on one character: what [\d] matches. *)
Definition isdecimal (c : char) : bool :=
  match decimal c with Some _ => true | None => false end.

(** '0'..'9'. *)
Definition is_ascii_digit (c : char) : bool := ((48 <=? c) && (c <=? 57))%N.

(** [str.isspace] on one character: the separators of [str.split()]. *)
Definition isspace (c : char) : bool :=
  (((0x9 <=? c) && (c <=? 0xd)) || ((0x1c <=? c) && (c <=? 0x20))
   || (c =? 0x85) || (c =? 0xa0) || (c =? 0x1680)
   || ((0x2000 <=? c) && (c <=? 0x200a))
   || (c =? 0x2028) || (c =? 0x2029) || (c =? 0x202f) || (c =? 0x205f)
   || (c =? 0x3000))%N.

End Unicode.

(** [str.split()] with no argument: the maximal runs of non-space
    characters, in order.  [cur] holds the run being read, reversed. *)
Fixpoint split_from (cur : str) (s : str) : list str :=
  match s with
  | [] => match cur with [] => [] | _ => [rev cur] end
  | c :: s' =>
      if Unicode.isspace c
      then match cur with
           | [] => split_from [] s'
           | _ => rev cur :: split_from [] s'
           end
      else split_from (c :: cur) s'
  end.

Definition split (s : str) : list str := split_from [] s.

Fixpoint lstrip (s : str) : str :=
  match s with
  | c :: s' => if Unicode.isspace c then lstrip s' else s
  | [] => []
  end.

(** [str.strip()]. *)
Definition strip (s : str) : str := rev (lstrip (rev (lstrip s))).

(** Decimal rendering of an integer, as [%d] and [str(int)] print it. *)
Definition decimal_of_Z (z : Z) : str :=
  match z with
  | Zneg p => lit "-" ++ lit (NilZero.string_of_uint (Pos.to_uint p))
  | _ => lit (NilZero.string_of_uint (N.to_uint (Z.to_N z)))
  end.

(** [%02d] for a non-negative number. *)
Definition pad2 (z : Z) : str :=
  if z <? 10 then lit "0" ++ decimal_of_Z z else decimal_of_Z z.

(** [int(s)] on text made of decimal digits, surrounding blanks ignored;
    anything else is refused. *)
Fixpoint int_digits (acc : Z) (s : str) : option Z :=
  match s with
  | [] => Some acc
  | c :: s' =>
      match Unicode.decimal c with
      | Some v => int_digits (acc * 10 + Z.of_N v) s'
      | None => None
      end
  end.

Definition int_of_str (s : str) : option Z :=
  match strip s with
  | [] => None
  | t => int_digits 0 t
  end.

(** ** Exceptions and results *)

Inductive exn :=
| ValueError (msg : str)
| KeyError (key : str)
| AttributeError (msg : str)
| IndexError (msg : str)
| OverflowError (msg : str).

Inductive outcome (A : Type) :=
| Return (a : A)
| Raise (e : exn).
Arguments Return {A} a.
Arguments Raise {A} e.

Definition obind {A B} (x : outcome A) (f : A -> outcome B) : outcome B :=
  match x with
  | Return a => f a
  | Raise e => Raise e
  end.

(** [str(e)]: the message; a [KeyError] prints the [repr] of its key. *)
Definition str_of_exn (e : exn) : str :=
  match e with
  | ValueError m | AttributeError m | IndexError m | OverflowError m => m
  | KeyError k => lit "'" ++ k ++ lit "'"
  end.

(** ** Regular expressions ([re])

    The fragment the program and [strptime] use: character classes,
    concatenation, ordered alternation, counted repetition and named
    groups, run by backtracking with the first alternative preferred. *)

Inductive regex :=
| Class (p : char -> bool)
| Cat (r1 r2 : regex)
| Or (r1 r2 : regex)
| Times (n : nat) (r : regex)
| Group (g : string) (r : regex).

Definition captures := list (string * str).

Fixpoint re_run {A} (r : regex) (s : str) (caps : captures)
    (k : captures -> str -> option A) : option A :=
  match r with
  | Class p =>
      match s with
      | c :: s' => if p c then k caps s' else None
      | [] => None
      end
  | Cat r1 r2 => re_run r1 s caps (fun caps' s' => re_run r2 s' caps' k)
  | Or r1 r2 =>
      match re_run r1 s caps k with
      | Some x => Some x
      | None => re_run r2 s caps k
      end
  | Times n r1 =>
      (fix rep (n : nat) (s : str) (caps : captures) : option A :=
         match n with
         | O => k caps s
         | S n' => re_run r1 s caps (fun caps' s' => rep n' s' caps')
         end) n s caps
  | Group g r1 =>
      re_run r1 s caps
        (fun caps' s' =>
           k ((g, firstn (length s - length s')%nat s) :: caps') s')
  end.

(** [re.match]: the first match of a prefix; the rest of the text is
    returned with the groups. *)
Definition re_match (r : regex) (s : str) : option (captures * str) :=
  re_run r s [] (fun caps rest => Some (caps, rest)).

(** [re.fullmatch]: the whole text must be consumed. *)
Definition re_fullmatch (r : regex) (s : str) : option captures :=
  re_run r s []
    (fun caps rest => match rest with [] => Some caps | _ => None end).

Fixpoint group (g : string) (caps : captures) : option str :=
  match caps with
  | [] => None
  | (g', t) :: caps' => if String.eqb g g' then Some t else group g caps'
  end.

Definition one (c : string) : regex :=
  Class (fun x => existsb (N.eqb x) (lit c)).
Definition range (lo hi : string) : regex :=
  Class (fun x =>
    match lit lo, lit hi with
    | [l], [h] => ((l <=? x) && (x <=? h))%N
    | _, _ => false
    end).
Definition digit : regex := Class Unicode.isdecimal.

(** ** Fields *)

Record Field (A : Type) := { value : A }.
Arguments value {A} f.

Definition Name := Field str.
Definition Phone := Field str.

(** [Name.__init__] *)
Definition Name_init (v : str) : outcome Name :=
  match v with
  | [] => Raise (ValueError (lit "Name can't be empty"))
  | _ => Return {| value := v |}
  end.

(** [Phone.__init__]: [re.fullmatch(r"\d{10}", phone)] *)
Definition phone_re : regex := Times 10 digit.

Definition Phone_init (phone : str) : outcome Phone :=
  match re_fullmatch phone_re phone with
  | None => Raise (ValueError (lit "The phone should contain 10 digits"))
  | Some _ => Return {| value := phone |}
  end.

(** ** Dates ([datetime.date])

    The proleptic Gregorian calendar of the [datetime] module, years
    [MINYEAR]..[MAXYEAR]; 1 January of year 1 is day number 1.  The
    definitions are those of the module ([_is_leap], [_days_before_year],
    [_ymd2ord], [_ord2ymd], ...), and the messages of the errors those of
    its constructor. *)

Record date := { year : Z; month : Z; day : Z }.

Module Datetime.

Definition MINYEAR : Z := 1.
Definition MAXYEAR : Z := 9999.
Definition MAXORDINAL : Z := 3652059.

Definition DAYS_IN_MONTH : list Z :=
  [-1; 31; 28; 31; 30; 31; 30; 31; 31; 30; 31; 30; 31].
Definition DAYS_BEFORE_MONTH : list Z :=
  [-1; 0; 31; 59; 90; 120; 151; 181; 212; 243; 273; 304; 334].

Definition index (l : list Z) (i : Z) : Z := nth (Z.to_nat i) l 0.

Definition is_leap (y : Z) : bool :=
  (y mod 4 =? 0) && (negb (y mod 100 =? 0) || (y mod 400 =? 0)).

Definition days_before_year (y0 : Z) : Z :=
  let y := y0 - 1 in y * 365 + y / 4 - y / 100 + y / 400.

Definition days_in_month (y m : Z) : Z :=
  if (m =? 2) && is_leap y then 29 else index DAYS_IN_MONTH m.

Definition days_before_month (y m : Z) : Z :=
  index DAYS_BEFORE_MONTH m + (if (2 <? m) && is_leap y then 1 else 0).

Definition ymd2ord (y m d : Z) : Z :=
  days_before_year y + days_before_month y m + d.

Definition DI400Y : Z := 146097.
Definition DI100Y : Z := 36524.
Definition DI4Y : Z := 1461.

Definition ord2ymd (n0 : Z) : Z * Z * Z :=
  let n := n0 - 1 in
  let n400 := n / DI400Y in
  let n := n mod DI400Y in
  let y := n400 * 400 + 1 in
  let n100 := n / DI100Y in
  let n := n mod DI100Y in
  let n4 := n / DI4Y in
  let n := n mod DI4Y in
  let n1 := n / 365 in
  let n := n mod 365 in
  let y := y + n100 * 100 + n4 * 4 + n1 in
  if (n1 =? 4) || (n100 =? 4) then (y - 1, 12, 31)
  else
    let leapyear := (n1 =? 3) && (negb (n4 =? 24) || (n100 =? 3)) in
    let m := Z.shiftr (n + 50) 5 in
    let preceding :=
      index DAYS_BEFORE_MONTH m + (if (2 <? m) && leapyear then 1 else 0) in
    if n <? preceding
    then
      let m := m - 1 in
      let preceding :=
        preceding
        - (index DAYS_IN_MONTH m + (if (m =? 2) && leapyear then 1 else 0)) in
      (y, m, n - preceding + 1)
    else (y, m, n - preceding + 1).

(** The field check of the [date] constructor. *)
Definition new (y m d : Z) : outcome date :=
  if negb ((MINYEAR <=? y) && (y <=? MAXYEAR))
  then Raise (ValueError
                (lit "year " ++ decimal_of_Z y ++ lit " is out of range"))
  else if negb ((1 <=? m) && (m <=? 12))
  then Raise (ValueError (lit "month must be in 1..12"))
  else if negb ((1 <=? d) && (d <=? days_in_month y m))
  then Raise (ValueError (lit "day is out of range for month"))
  else Return {| year := y; month := m; day := d |}.

(** [d.replace(year=y)] *)
Definition replace_year (d : date) (y : Z) : outcome date :=
  new y (month d) (day d).

Definition toordinal (d : date) : Z := ymd2ord (year d) (month d) (day d).

Definition fromordinal (n : Z) : date :=
  let '(y, m, d) := ord2ymd n in {| year := y; month := m; day := d |}.

(** [a < b]: the (year, month, day) triples, compared field by field. *)
Definition lt (a b : date) : bool :=
  (year a <? year b)
  || ((year a =? year b)
      && ((month a <? month b)
          || ((month a =? month b) && (day a <? day b)))).

(** [(a - b).days] *)
Definition days_between (a b : date) : Z := toordinal a - toordinal b.

(** [d + timedelta(days=n)] *)
Definition add_days (d : date) (n : Z) : outcome date :=
  let o := toordinal d + n in
  if (0 <? o) && (o <=? MAXORDINAL) then Return (fromordinal o)
  else Raise (OverflowError (lit "date value out of range")).

(** [d.weekday()]: Monday is 0, Sunday is 6. *)
Definition weekday (d : date) : Z := (toordinal d + 6) mod 7.

(** [d.strftime("%d.%m.%Y")]; the C library prints the year without
    padding, so years from 1000 on have four digits. *)
Definition strftime (d : date) : str :=
  pad2 (day d) ++ lit "." ++ pad2 (month d) ++ lit "."
  ++ decimal_of_Z (year d).

(** The expression [strptime] compiles the format "%d.%m.%Y" to:
    [(?P<d>3[0-1]|[1-2]\d|0[1-9]|[1-9]| [1-9])\.(?P<m>1[0-2]|0[1-9]|[1-9])\.(?P<Y>\d\d\d\d)].
    It is compiled with IGNORECASE, which changes nothing here: digits,
    the blank and the dot have no case. *)
Definition re_d : regex :=
  Group "d"
    (Or (Cat (one "3") (range "0" "1"))
    (Or (Cat (range "1" "2") digit)
    (Or (Cat (one "0") (range "1" "9"))
    (Or (range "1" "9")
        (Cat (one " ") (range "1" "9")))))).
Definition re_m : regex :=
  Group "m"
    (Or (Cat (one "1") (range "0" "2"))
    (Or (Cat (one "0") (range "1" "9"))
        (range "1" "9"))).
Definition re_Y : regex := Group "Y" (Cat digit (Cat digit (Cat digit digit))).
Definition format_regex : regex :=
  Cat re_d (Cat (one ".") (Cat re_m (Cat (one ".") re_Y))).

(** [datetime.strptime(s, "%d.%m.%Y")].  The result has its time of day at
    midnight, so it is kept as a [date]: the program only reads its date and
    prints it with a date format.  The texts of the errors are shortened to
    their fixed part.  A match sets the three groups to digits, so the cases
    of a missing group and of text that [int()] refuses are never taken. *)
Definition strptime (s : str) : outcome date :=
  match re_match format_regex s with
  | None => Raise (ValueError (lit "time data does not match format"))
  | Some (caps, rest) =>
      match rest with
      | _ :: _ => Raise (ValueError (lit "unconverted data remains"))
      | [] =>
          match group "Y" caps, group "m" caps, group "d" caps with
          | Some ty, Some tm, Some td =>
              match int_of_str ty, int_of_str tm, int_of_str td with
              | Some y, Some m, Some d => new y m d
              | _, _, _ => Raise (ValueError (lit "invalid literal for int()"))
              end
          | _, _, _ => Raise (IndexError (lit "no such group"))
          end
      end
  end.

End Datetime.

Definition Birthday := Field date.

(** [Birthday.__init__] *)
Definition Birthday_init (v : str) : outcome Birthday :=
  match Datetime.strptime v with
  | Return d => Return {| value := d |}
  | Raise (ValueError _) =>
      Raise (ValueError (lit "Invalid date format. Use DD.MM.YYYY"))
  | Raise e => Raise e
  end.

(** ** State and exceptions

    Methods change the object they are called on, and an exception leaves
    the changes made before it in place: a computation takes a state and
    gives an outcome together with the state it leaves. *)

Definition SE (S A : Type) : Type := S -> outcome A * S.

Definition ret {S A} (a : A) : SE S A := fun s => (Return a, s).
Definition raise {S A} (e : exn) : SE S A := fun s => (Raise e, s).
Definition bind {S A B} (m : SE S A) (f : A -> SE S B) : SE S B :=
  fun s =>
    match m s with
    | (Return a, s') => f a s'
    | (Raise e, s') => (Raise e, s')
    end.
Definition get {S} : SE S S := fun s => (Return s, s).
Definition put {S} (s : S) : SE S unit := fun _ => (Return tt, s).
Definition lift {S A} (o : outcome A) : SE S A := fun s => (o, s).

Declare Scope se_scope.
Delimit Scope se_scope with se.
Notation "x <- m ;; k" := (bind m (fun x => k))
  (at level 100, m at next level, right associativity) : se_scope.
Notation "m ;;; k" := (bind m (fun _ => k))
  (at level 100, right associativity) : se_scope.
Local Open Scope se_scope.

(** ** Record *)

Record record := {
  name : Name;
  phones : list Phone;
  birthday : option Birthday
}.

Definition set_phones (ps : list Phone) (r : record) : record :=
  {| name := name r; phones := ps; birthday := birthday r |}.
Definition set_birthday (b : option Birthday) (r : record) : record :=
  {| name := name r; phones := phones r; birthday := b |}.

Module Rec.

(** [Record.__init__] *)
Definition init (n : str) : outcome record :=
  obind (Name_init n)
    (fun nm => Return {| name := nm; phones := []; birthday := None |}).

(** [find_phone]: the first [Phone] object of the list whose value is
    [phone], given by its position, or [None]. *)
Fixpoint find_phone_in (ps : list Phone) (phone : str) : option nat :=
  match ps with
  | [] => None
  | p :: ps' =>
      if decide (value p = phone) then Some O
      else option_map S (find_phone_in ps' phone)
  end.

Definition find_phone (phone : str) : SE record (option nat) :=
  self <- get ;; ret (find_phone_in (phones self) phone).

Definition add_phone (phone : str) : SE record unit :=
  new_phone <- lift (Phone_init phone) ;;
  self <- get ;;
  put (set_phones (phones self ++ [new_phone]) self).

Definition remove_phone (phone : str) : SE record unit :=
  current_phone <- find_phone phone ;;
  match current_phone with
  | None => raise (ValueError (lit "Phone not found"))
  | Some i => self <- get ;; put (set_phones (delete i (phones self)) self)
  end.

Definition edit_phone (old_phone new_phone : str) : SE record unit :=
  current_phone <- find_phone old_phone ;;
  match current_phone with
  | None => raise (ValueError (lit "Phone not found"))
  | Some i =>
      validated_phone <- lift (Phone_init new_phone) ;;
      self <- get ;;
      put (set_phones
             (<[i := {| value := value validated_phone |}]> (phones self))
             self)
  end.

Definition add_birthday (birthday_string : str) : SE record unit :=
  b <- lift (Birthday_init birthday_string) ;;
  self <- get ;;
  put (set_birthday (Some b) self).

End Rec.

(** ** AddressBook

    [Record] objects live in a heap and are known by their position in it;
    the dictionary [data] of the book maps a name to such a reference and
    keeps the order in which the names were first inserted.  What [find]
    hands out is the reference, so a change made through it is seen in the
    book. *)

Definition loc := nat.

Record world := {
  heap : list record;
  data : list (str * loc)
}.

Definition empty_world : world := {| heap := []; data := [] |}.

Fixpoint dict_get {V} (k : str) (d : list (str * V)) : option V :=
  match d with
  | [] => None
  | (k', v) :: d' => if decide (k = k') then Some v else dict_get k d'
  end.

(** [d[k] = v]: a known key keeps its place, a new one goes last. *)
Fixpoint dict_set {V} (k : str) (v : V) (d : list (str * V)) : list (str * V) :=
  match d with
  | [] => [(k, v)]
  | (k', v') :: d' =>
      if decide (k = k') then (k', v) :: d' else (k', v') :: dict_set k v d'
  end.

(** [del d[k]] *)
Fixpoint dict_del {V} (k : str) (d : list (str * V)) : list (str * V) :=
  match d with
  | [] => []
  | (k', v') :: d' =>
      if decide (k = k') then d' else (k', v') :: dict_del k d'
  end.

(** [Record(name)]: a new object. *)
Definition new_record (n : str) : SE world loc :=
  r <- lift (Rec.init n) ;;
  w <- get ;;
  put {| heap := heap w ++ [r]; data := data w |} ;;;
  ret (length (heap w)).

(** Reading the object behind a reference.  A reference always denotes an
    object of the heap; the other case only makes the function total. *)
Definition deref (l : loc) : SE world record :=
  w <- get ;;
  match heap w !! l with
  | Some r => ret r
  | None => raise (AttributeError (lit "no such object"))
  end.

(** A method call [obj.m(...)] on the object behind [l]. *)
Definition call {A} (l : loc) (m : SE record A) : SE world A :=
  self <- deref l ;;
  fun w =>
    let '(o, self') := m self in
    (o, {| heap := <[l := self']> (heap w); data := data w |}).

(** A method call on what [find] returned: [None] has no methods and no
    attributes. *)
Definition call_opt {A} (ol : option loc) (m : SE record A) : SE world A :=
  match ol with
  | Some l => call l m
  | None => raise (AttributeError (lit "'NoneType' object has no attribute"))
  end.

(** One entry of the list [get_upcoming_birthdays] returns. *)
Record entry := { entry_name : str; congratulation_date : str }.

Module Book.

Definition add_record (l : loc) : SE world unit :=
  r <- deref l ;;
  w <- get ;;
  put {| heap := heap w; data := dict_set (value (name r)) l (data w) |}.

Definition find (n : str) : SE world (option loc) :=
  w <- get ;; ret (dict_get n (data w)).

Definition delete (n : str) : SE world unit :=
  r <- find n ;;
  match r with
  | None => raise (KeyError (lit "Record not found"))
  | Some _ =>
      w <- get ;; put {| heap := heap w; data := dict_del n (data w) |}
  end.

(** The body of the loop of [get_upcoming_birthdays] for one record;
    [result] is the list built so far. *)
Definition upcoming_body (today_date : date) (result : list entry)
    (r : record) : outcome (list entry) :=
  let current_year := year today_date in
  match birthday r with
  | None => Return result
  | Some contact_birthday =>
      let birthday_date := value contact_birthday in
      obind (Datetime.replace_year birthday_date current_year) (fun c =>
      obind (if Datetime.lt c today_date
             then Datetime.replace_year c (current_year + 1)
             else Return c) (fun c =>
      let days_diff := Datetime.days_between c today_date in
      if (0 <=? days_diff) && (days_diff <=? 7)
      then
        obind (if Datetime.weekday c =? 5 then Datetime.add_days c 2
               else if Datetime.weekday c =? 6 then Datetime.add_days c 1
               else Return c) (fun congratulation_date =>
        Return (result ++
                  [ {| entry_name := value (name r);
                       congratulation_date :=
                         Datetime.strftime congratulation_date |} ]))
      else Return result))
  end.

Fixpoint upcoming_loop (today_date : date) (result : list entry)
    (rs : list record) : outcome (list entry) :=
  match rs with
  | [] => Return result
  | r :: rs' =>
      obind (upcoming_body today_date result r)
        (fun result' => upcoming_loop today_date result' rs')
  end.

(** [self.data.values()]: the objects of the book, in dictionary order. *)
Definition values (w : world) : list record :=
  omap (fun kv => heap w !! snd kv) (data w).

(** [get_upcoming_birthdays]; [today_date] is what
    [datetime.today().date()] gives. *)
Definition get_upcoming_birthdays (today_date : date)
    : SE world (list entry) :=
  w <- get ;; lift (upcoming_loop today_date [] (values w)).

End Book.

(** ** Command handlers *)

(** What a decorated function hands back: a text, or the tuple
    [parse_input] builds. *)
Inductive pyval :=
| Str (s : str)
| Tuple (items : list str).

(** The decorator [input_error]. *)
Definition input_error {S} (func : SE S pyval) : SE S pyval :=
  fun s =>
    match func s with
    | (Return v, s') => (Return v, s')
    | (Raise (AttributeError _), s') =>
        (Return (Str (lit "Error: Contact not found")), s')
    | (Raise (KeyError _ as e), s')
    | (Raise (ValueError _ as e), s')
    | (Raise (IndexError _ as e), s') =>
        (Return (Str (lit "Error: " ++ str_of_exn e)), s')
    | (Raise e, s') => (Raise e, s')
    end.

(** [sep.join(items)] *)
Fixpoint join (sep : str) (items : list str) : str :=
  match items with
  | [] => []
  | [x] => x
  | x :: rest => x ++ sep ++ join sep rest
  end.

Definition add_contact (args : list str) : SE world pyval :=
  input_error
    match args with
    | n :: phone :: _ =>
        found <- Book.find n ;;
        rm <- match found with
              | None =>
                  l <- new_record n ;;
                  Book.add_record l ;;;
                  ret (l, lit "Contact added.")
              | Some l => ret (l, lit "Contact updated.")
              end ;;
        match phone with
        | [] => ret tt
        | _ => call (fst rm) (Rec.add_phone phone)
        end ;;;
        ret (Str (snd rm))
    | _ => raise (ValueError (lit "Usage: add [name] [phone]"))
    end.

Definition change_contact (args : list str) : SE world pyval :=
  input_error
    match args with
    | n :: old_phone :: new_phone :: _ =>
        found <- Book.find n ;;
        call_opt found (Rec.edit_phone old_phone new_phone) ;;;
        ret (Str (lit "Phone updated."))
    | _ =>
        raise (ValueError (lit "Usage: change [name] [old_phone] [new_phone]"))
    end.

Definition show_phones (args : list str) : SE world pyval :=
  input_error
    match args with
    | n :: _ =>
        found <- Book.find n ;;
        ps <- call_opt found (self <- get ;; ret (phones self)) ;;
        match ps with
        | [] => ret (Str (lit "No phones found."))
        | _ => ret (Str (join (lit "; ") (map value ps)))
        end
    | _ => raise (ValueError (lit "Usage: phone [name]"))
    end.

Definition birthday_text (r : record) : str :=
  match birthday r with
  | Some b => Datetime.strftime (value b)
  | None => lit "No birthday"
  end.

Definition show_all (_ : list str) : SE world pyval :=
  input_error
    (w <- get ;;
     match data w with
     | [] => ret (Str (lit "No contacts in address book."))
     | _ =>
         ret (Str (join (lit (String (ascii_of_nat 10) EmptyString))
                     (map (fun r =>
                             value (name r) ++ lit ": "
                             ++ join (lit "; ") (map value (phones r))
                             ++ lit "; Birthday: " ++ birthday_text r)
                          (Book.values w))))
     end).

Definition add_birthday (args : list str) : SE world pyval :=
  input_error
    match args with
    | n :: b :: _ =>
        found <- Book.find n ;;
        call_opt found (Rec.add_birthday b) ;;;
        ret (Str (lit "Birthday added."))
    | _ => raise (ValueError (lit "Usage: add-birthday [name] [DD.MM.YYYY]"))
    end.

Definition show_birthday (args : list str) : SE world pyval :=
  input_error
    match args with
    | n :: _ =>
        found <- Book.find n ;;
        b <- call_opt found (self <- get ;; ret (birthday self)) ;;
        match b with
        | None => ret (Str (lit "No birthday set."))
        | Some b => ret (Str (Datetime.strftime (value b)))
        end
    | _ => raise (ValueError (lit "Usage: show-birthday [name]"))
    end.

Definition birthdays (today_date : date) (_ : list str) : SE world pyval :=
  input_error
    (upcoming <- Book.get_upcoming_birthdays today_date ;;
     match upcoming with
     | [] => ret (Str (lit "No birthdays in the next 7 days."))
     | _ =>
         ret (Str (join (lit (String (ascii_of_nat 10) EmptyString))
                     (map (fun item =>
                             entry_name item ++ lit ": "
                             ++ congratulation_date item)
                          upcoming)))
     end).

(** ** The command loop *)

(** What one turn of the loop does to the outside. *)
Inductive event :=
| Printed (line : pyval)
| Saved (book : list (str * record)).

(** [a, *rest = v]: a tuple gives its items, a text its characters. *)
Definition unpack_first (v : pyval) : outcome (str * list str) :=
  match v with
  | Tuple (c :: rest) => Return (c, rest)
  | Str (c :: rest) => Return ([c], map (fun x => [x]) rest)
  | _ =>
      Raise (ValueError
               (lit "not enough values to unpack (expected at least 1, got 0)"))
  end.

(** What [pickle.dump(book, f)] writes: the names with their records. *)
Definition snapshot (w : world) : list (str * record) :=
  omap (fun kv => option_map (pair (fst kv)) (heap w !! snd kv)) (data w).

Section Loop.

(** [str.lower]: the case mapping of the Unicode database. *)
Variable lower : str -> str.

Definition parse_input {S} (user_input : str) : SE S pyval :=
  input_error
    (ca <- lift (unpack_first (Tuple (split user_input))) ;;
     let cmd := lower (strip (fst ca)) in
     ret (Tuple (cmd :: snd ca))).

(** One turn of the loop of [main] on the line [user_input]: the events
    of the turn, and whether the loop goes on. *)
Definition main_turn (today_date : date) (user_input : str)
    : SE world (list event * bool) :=
  parsed <- parse_input user_input ;;
  ca <- lift (unpack_first parsed) ;;
  let command := fst ca in
  let args := snd ca in
  let handle (h : list str -> SE world pyval) : SE world (list event * bool) :=
    (out <- h args ;; ret ([Printed out], true)) in
  if bool_decide (command = lit "close") || bool_decide (command = lit "exit")
  then w <- get ;; ret ([Saved (snapshot w); Printed (Str (lit "Good bye!"))], false)
  else if bool_decide (command = lit "hello")
  then ret ([Printed (Str (lit "How can I help you?"))], true)
  else if bool_decide (command = lit "add") then handle add_contact
  else if bool_decide (command = lit "change") then handle change_contact
  else if bool_decide (command = lit "phone") then handle show_phones
  else if bool_decide (command = lit "all") then handle show_all
  else if bool_decide (command = lit "add-birthday") then handle add_birthday
  else if bool_decide (command = lit "show-birthday") then handle show_birthday
  else if bool_decide (command = lit "birthdays") then handle (birthdays today_date)
  else ret ([Printed (Str (lit "Invalid command."))], true).

End Loop.

(** ** Reachable states

    The states the program can be in: from the empty book, by any of the
    operations of [Record] and [AddressBook], any command handler, and any
    turn of the loop. *)

Inductive action :=
| DoNewRecord (n : str)
| DoAddPhone (l : loc) (phone : str)
| DoRemovePhone (l : loc) (phone : str)
| DoEditPhone (l : loc) (old_phone new_phone : str)
| DoAddBirthday (l : loc) (b : str)
| DoAddRecord (l : loc)
| DoDelete (n : str)
| DoAddContact (args : list str)
| DoChangeContact (args : list str)
| DoAddBirthdayCmd (args : list str)
| DoTurn (lower : str -> str) (today_date : date) (line : str).

Definition after {A} (m : SE world A) (w : world) : world := snd (m w).

Definition perform (a : action) : world -> world :=
  match a with
  | DoNewRecord n => after (new_record n)
  | DoAddPhone l p => after (call l (Rec.add_phone p))
  | DoRemovePhone l p => after (call l (Rec.remove_phone p))
  | DoEditPhone l o n => after (call l (Rec.edit_phone o n))
  | DoAddBirthday l b => after (call l (Rec.add_birthday b))
  | DoAddRecord l => after (Book.add_record l)
  | DoDelete n => after (Book.delete n)
  | DoAddContact args => after (add_contact args)
  | DoChangeContact args => after (change_contact args)
  | DoAddBirthdayCmd args => after (add_birthday args)
  | DoTurn lower today_date line => after (main_turn lower today_date line)
  end.

Inductive reachable : world -> Prop :=
| reach_empty : reachable empty_world
| reach_step a w : reachable w -> reachable (perform a w).

(** ** Notions used in the statements *)

(** Ten decimal digits. *)
Definition all_decimal (s : str) : Prop :=
  Forall (fun c => Unicode.isdecimal c = true) s.
Definition valid_phone (s : str) : Prop := length s = 10%nat /\ all_decimal s.

(** The entries a dictionary stores under [k]. *)
Definition entries_of {V} (k : str) (d : list (str * V)) : list (str * V) :=
  List.filter (fun kv => bool_decide (fst kv = k)) d.

(** A computation keeps the property [P] of the state, whatever its
    outcome. *)
Definition preserves {A} (P : world -> Prop) (m : SE world A) : Prop :=
  forall w, P w -> P (after m w).

(** Every phone of the record is a valid phone number. *)
Definition record_ok (r : record) : Prop :=
  Forall (fun p => valid_phone (value p)) (phones r).
Definition phones_ok (w : world) : Prop := Forall record_ok (heap w).

(** The dictionary has each name once and refers to objects of the heap. *)
Definition refs_ok (w : world) : Prop :=
  List.NoDup (map fst (data w))
  /\ Forall (fun kv => (snd kv < length (heap w))%nat) (data w).

(** *** The upcoming birthdays, as the specification words them *)

(** The fields make a date of the calendar. *)
Definition date_exists (d : date) : bool :=
  (Datetime.MINYEAR <=? year d) && (year d <=? Datetime.MAXYEAR)
  && (1 <=? month d) && (month d <=? 12)
  && (1 <=? day d) && (day d <=? Datetime.days_in_month (year d) (month d)).

(** The day and month of [b] in the year [y]. *)
Definition same_day_in (y : Z) (b : date) : date :=
  {| year := y; month := month b; day := day b |}.

(** The candidate: the birthday in today's year, or in the year after when
    that day is strictly before today. *)
Definition candidate (today b : date) : date :=
  if Datetime.lt (same_day_in (year today) b) today
  then same_day_in (year today + 1) b
  else same_day_in (year today) b.

(** Zero to seven whole days from today to the candidate. *)
Definition in_window (today b : date) : bool :=
  let days_diff := Datetime.days_between (candidate today b) today in
  (0 <=? days_diff) && (days_diff <=? 7).

(** Both dates the method builds on the way to the candidate exist. *)
Definition candidate_exists (today b : date) : bool :=
  date_exists (same_day_in (year today) b) && date_exists (candidate today b).

(** The date [n] days after [d]. *)
Definition later (d : date) (n : Z) : date :=
  Datetime.fromordinal (Datetime.toordinal d + n).

(** The weekend shift: Saturday and Sunday go to the Monday after. *)
Definition congratulation (c : date) : date :=
  if Datetime.weekday c =? 5 then later c 2
  else if Datetime.weekday c =? 6 then later c 1
  else c.

(** The record is among the upcoming birthdays. *)
Definition selected (today : date) (r : record) : bool :=
  match birthday r with
  | Some b => in_window today (value b)
  | None => false
  end.

(** What is emitted for a record, if anything. *)
Definition upcoming_entry (today : date) (r : record) : option entry :=
  match birthday r with
  | Some b =>
      if in_window today (value b)
      then Some {| entry_name := value (name r);
                   congratulation_date :=
                     Datetime.strftime (congratulation (candidate today (value b))) |}
      else None
  | None => None
  end.

(** The method returns, and the names it returns are those of the selected
    records, in the order of the book. *)
Definition upcoming_selects (w : world) (today : date) : Prop :=
  exists res,
    Book.get_upcoming_birthdays today w = (Return res, w)
    /\ map entry_name res
       = map (fun r => value (name r))
           (List.filter (selected today) (Book.values w)).

(** The dates of every record with a birthday can be built. *)
Definition buildable (today : date) (r : record) : bool :=
  match birthday r with
  | Some b => candidate_exists today (value b)
  | None => true
  end.

(** A little book: Ann, born on 2 March 1990, then Bob, born on
    29 February 2000, entered with the commands of the program. *)
Definition leap_book : world :=
  after (add_birthday [lit "Bob"; lit "29.02.2000"])
    (after (add_contact [lit "Bob"; lit "0987654321"])
       (after (add_birthday [lit "Ann"; lit "02.03.1990"])
          (after (add_contact [lit "Ann"; lit "1234567890"]) empty_world))).

(** A book with Jane alone, born on 15 June 1990. *)
Definition jane_book : world :=
  after (add_birthday [lit "Jane"; lit "15.06.1990"])
    (after (add_contact [lit "Jane"; lit "1234567890"]) empty_world).

(** An error of the date constructor. *)
Definition construction_error (e : exn) : Prop :=
  (exists msg, e = ValueError msg) /\ (exists y m d, Datetime.new y m d = Raise e).

(** The two-digit and four-digit texts of a number, in '0'..'9'. *)
Definition digit_char (v : Z) : char := Z.to_N (48 + v).
Definition two_digits (n : Z) : str := [digit_char (n / 10); digit_char (n mod 10)].
Definition four_digits (n : Z) : str :=
  [digit_char (n / 1000); digit_char (n / 100 mod 10);
   digit_char (n / 10 mod 10); digit_char (n mod 10)].

(** The text DD.MM.YYYY of a date. *)
Definition DDMMYYYY (d : date) : str :=
  two_digits (day d) ++ lit "." ++ two_digits (month d) ++ lit "."
  ++ four_digits (year d).

(** ** Notions used in the further properties *)

(** The groups a regular expression sets, last first, when every way
    through it sets the same ones. *)
Inductive sets_groups : regex -> list string -> Prop :=
| sets_Class p : sets_groups (Class p) []
| sets_Cat r1 r2 g1 g2 :
    sets_groups r1 g1 -> sets_groups r2 g2 -> sets_groups (Cat r1 r2) (g2 ++ g1)
| sets_Or r1 r2 g :
    sets_groups r1 g -> sets_groups r2 g -> sets_groups (Or r1 r2) g
| sets_Times n r : sets_groups r [] -> sets_groups (Times n r) []
| sets_Group g r gs : sets_groups r gs -> sets_groups (Group g r) (g :: gs).

(** The exceptions [input_error] turns into a text. *)
Definition caught (e : exn) : Prop :=
  match e with
  | OverflowError _ => False
  | _ => True
  end.

(** The computation returns values with [Q] or raises what [input_error]
    catches. *)
Definition gentle {S A} (Q : A -> Prop) (m : SE S A) : Prop :=
  forall s, match fst (m s) with
            | Return a => Q a
            | Raise e => caught e
            end.

Definition is_text (v : pyval) : Prop :=
  match v with
  | Str _ => True
  | Tuple _ => False
  end.

(** The computation leaves the state as it is. *)
Definition quiet {S A} (m : SE S A) : Prop := forall s, snd (m s) = s.

(** A record as the program makes them: a name that is not empty, valid
    phones, and a date of the calendar as the birthday, if any. *)
Definition record_wf (r : record) : Prop :=
  value (name r) <> []
  /\ record_ok r
  /\ forall b, birthday r = Some b -> date_exists (value b) = true.

(** The book has each name once, and each name refers to a record of the
    heap with that name. *)
Definition world_wf (w : world) : Prop :=
  Forall record_wf (heap w)
  /\ List.NoDup (map fst (data w))
  /\ Forall (fun kv => exists r, heap w !! snd kv = Some r
                                 /\ value (name r) = fst kv) (data w).

(** A method keeps a record well formed and does not rename it. *)
Definition keeps {A} (m : SE record A) : Prop :=
  forall r, record_wf r ->
            record_wf (snd (m r)) /\ name (snd (m r)) = name r.



(** ** Properties: phone numbers *)

Lemma re_run_Times_S {A} n r s caps (k : captures -> str -> option A) :
  re_run (Times (S n) r) s caps k
  = re_run r s caps (fun caps' s' => re_run (Times n r) s' caps' k).
Proof. reflexivity. Qed.

Lemma re_run_Class {A} p s caps (k : captures -> str -> option A) :
  re_run (Class p) s caps k
  = match s with
    | c :: s' => if p c then k caps s' else None
    | [] => None
    end.
Proof. reflexivity. Qed.

(** [\d{n}] reads [n] digits and nothing else. *)
Lemma re_run_digits {A} n : forall s caps (k : captures -> str -> option A),
  re_run (Times n digit) s caps k
  = if (n <=? length s)%nat && forallb Unicode.isdecimal (firstn n s)
    then k caps (skipn n s) else None.
Proof.
  unfold digit.
  induction n as [|n IH]; intros s caps k.
  - reflexivity.
  - rewrite re_run_Times_S, re_run_Class.
    destruct s as [|c s]; [reflexivity|].
    destruct (Unicode.isdecimal c) eqn:Hc.
    + rewrite IH. cbn [length firstn skipn forallb]. rewrite Hc.
      reflexivity.
    + cbn [length firstn forallb]. rewrite Hc.
      rewrite andb_false_r. reflexivity.
Qed.

Lemma all_decimal_forallb s :
  all_decimal s <-> forallb Unicode.isdecimal s = true.
Proof.
  unfold all_decimal. rewrite forallb_forall, Forall_forall.
  split; intros H x Hx; apply H; apply list_elem_of_In; exact Hx.
Qed.

Lemma fullmatch_phone s :
  re_fullmatch phone_re s
  = if (length s =? 10)%nat && forallb Unicode.isdecimal s
    then Some [] else None.
Proof.
  unfold re_fullmatch, phone_re. rewrite re_run_digits.
  destruct (10 <=? length s)%nat eqn:Hle.
  - apply Nat.leb_le in Hle.
    destruct (length s =? 10)%nat eqn:Heq.
    + apply Nat.eqb_eq in Heq.
      rewrite firstn_all2 by lia. rewrite skipn_all2 by lia.
      destruct (forallb Unicode.isdecimal s); reflexivity.
    + apply Nat.eqb_neq in Heq. cbn [andb].
      destruct (forallb Unicode.isdecimal (firstn 10 s)); [|reflexivity].
      cbn [andb]. destruct (skipn 10 s) eqn:Hs; [|reflexivity].
      apply (f_equal (@length _)) in Hs. rewrite length_skipn in Hs.
      cbn in Hs. lia.
  - apply Nat.leb_gt in Hle.
    replace (length s =? 10)%nat with false
      by (symmetry; apply Nat.eqb_neq; lia).
    reflexivity.
Qed.

Lemma Phone_init_valid s :
  valid_phone s -> Phone_init s = Return {| value := s |}.
Proof.
  intros [Hlen Hd]. unfold Phone_init. rewrite fullmatch_phone.
  apply Nat.eqb_eq in Hlen. apply all_decimal_forallb in Hd.
  rewrite Hlen, Hd. reflexivity.
Qed.

Lemma Phone_init_invalid s :
  ~ valid_phone s ->
  Phone_init s = Raise (ValueError (lit "The phone should contain 10 digits")).
Proof.
  intros Hn. unfold Phone_init. rewrite fullmatch_phone.
  destruct (length s =? 10)%nat eqn:Hlen; [|reflexivity].
  destruct (forallb Unicode.isdecimal s) eqn:Hd; [|reflexivity].
  exfalso. apply Hn. split.
  - apply Nat.eqb_eq. exact Hlen.
  - apply all_decimal_forallb. exact Hd.
Qed.

Lemma Phone_init_Return s p : Phone_init s = Return p -> valid_phone s /\ value p = s.
Proof.
  unfold Phone_init. rewrite fullmatch_phone.
  destruct (length s =? 10)%nat eqn:Hlen; [|discriminate].
  destruct (forallb Unicode.isdecimal s) eqn:Hd; [|discriminate].
  cbn. intros [= <-]. split; [split|reflexivity].
  - apply Nat.eqb_eq. exact Hlen.
  - apply all_decimal_forallb. exact Hd.
Qed.

Lemma ascii_digit_isdecimal c :
  Unicode.is_ascii_digit c = true -> Unicode.isdecimal c = true.
Proof.
  unfold Unicode.is_ascii_digit, Unicode.isdecimal, Unicode.decimal.
  intros H. cbn [Unicode.decimal_zeros Unicode.decimal_in].
  replace ((48 <=? c)%N && (c <? 48 + 10)%N) with true; [reflexivity|].
  symmetry. apply andb_true_iff in H as [H1 H2].
  apply andb_true_iff. split; [exact H1|].
  apply N.ltb_lt. apply N.leb_le in H2. lia.
Qed.

(** C4.  [Phone.__init__] (validate_phone) accepts every string of exactly
    ten decimal digits and keeps it unchanged as the value of the field, and
    raises the ValueError "The phone should contain 10 digits" for every
    string whose length is not ten or that has a character that is not a
    decimal digit.  A decimal digit is what the expression [\d] matches on
    text: a character of the Unicode category Nd, '0'..'9' among them. *)
Theorem Phone_init_spec (s : str) :
  (length s = 10%nat /\ all_decimal s ->
   exists p, Phone_init s = Return p /\ value p = s)
  /\ (length s <> 10%nat \/ Exists (fun c => Unicode.isdecimal c = false) s ->
      Phone_init s
      = Raise (ValueError (lit "The phone should contain 10 digits"))).
Proof.
  split.
  - intros H. exists {| value := s |}. split; [|reflexivity].
    apply Phone_init_valid. exact H.
  - intros H. apply Phone_init_invalid. intros [Hlen Hd].
    destruct H as [H|H]; [contradiction|].
    apply Exists_exists in H as (c & Hc & Hf).
    unfold all_decimal in Hd. rewrite Forall_forall in Hd.
    specialize (Hd c Hc). congruence.
Qed.

Lemma Phone_init_spec_witness :
  (exists p, Phone_init (lit "1234567890") = Return p
             /\ value p = lit "1234567890")
  /\ Phone_init (lit "12345")
     = Raise (ValueError (lit "The phone should contain 10 digits"))
  /\ Phone_init (lit "12345a7890")
     = Raise (ValueError (lit "The phone should contain 10 digits")).
Proof.
  split; [|split].
  - apply (proj1 (Phone_init_spec (lit "1234567890"))).
    split; [reflexivity|]. apply all_decimal_forallb. reflexivity.
  - apply (proj2 (Phone_init_spec (lit "12345"))). left. vm_compute. lia.
  - apply (proj2 (Phone_init_spec (lit "12345a7890"))). right.
    apply Exists_exists. exists 97%N. split; [|reflexivity].
    vm_compute. do 5 right. left.
Defined.

(** In particular the ten characters may be any of '0'..'9'. *)
Lemma Phone_init_ascii s :
  length s = 10%nat -> forallb Unicode.is_ascii_digit s = true ->
  Phone_init s = Return {| value := s |}.
Proof.
  intros Hlen Hd. apply Phone_init_valid. split; [exact Hlen|].
  rewrite forallb_forall in Hd. apply Forall_forall. intros c Hc.
  apply ascii_digit_isdecimal, Hd, list_elem_of_In, Hc.
Qed.

(** Digits of other scripts are decimal digits too: ten Arabic-Indic
    digits are accepted. *)
Example Phone_init_arabic_indic :
  Phone_init [0x661; 0x662; 0x663; 0x664; 0x665; 0x666; 0x667; 0x668; 0x669; 0x660]%N
  = Return {| value := [0x661; 0x662; 0x663; 0x664; 0x665; 0x666; 0x667; 0x668; 0x669; 0x660]%N |}.
Proof. reflexivity. Qed.

(** ** Properties: the dictionary of the book *)

Section Dict.
Context {V : Type}.
Implicit Types (d : list (str * V)) (k : str) (v : V).

Lemma dict_get_None k d : dict_get k d = None <-> ~ In k (map fst d).
Proof.
  induction d as [|[k' v'] d IH]; cbn.
  - tauto.
  - destruct (decide (k = k')) as [->|Hne].
    + split; [discriminate|]. intros H. exfalso. apply H. now left.
    + rewrite IH. split.
      * intros H [Heq|Hin]; [congruence|tauto].
      * intros H Hin. apply H. now right.
Qed.

Lemma dict_get_Some_In k v d : dict_get k d = Some v -> In (k, v) d.
Proof.
  induction d as [|[k' v'] d IH]; cbn; [discriminate|].
  destruct (decide (k = k')) as [->|Hne].
  - intros [= ->]. now left.
  - intros H. right. auto.
Qed.

Lemma dict_get_set_eq k v d : dict_get k (dict_set k v d) = Some v.
Proof.
  induction d as [|[k' v'] d IH]; cbn.
  - destruct (decide (k = k)); congruence.
  - destruct (decide (k = k')) as [->|Hne]; cbn.
    + destruct (decide (k' = k')); congruence.
    + destruct (decide (k = k')); [congruence|exact IH].
Qed.

Lemma dict_get_set_ne k k' v d :
  k <> k' -> dict_get k' (dict_set k v d) = dict_get k' d.
Proof.
  intros Hne. induction d as [|[k'' v''] d IH]; cbn.
  - destruct (decide (k' = k)); congruence.
  - destruct (decide (k = k'')) as [->|Hne']; cbn.
    + destruct (decide (k' = k'')); congruence.
    + destruct (decide (k' = k'')); [reflexivity|exact IH].
Qed.

Lemma keys_dict_set_in k v d :
  In k (map fst d) -> map fst (dict_set k v d) = map fst d.
Proof.
  induction d as [|[k' v'] d IH]; cbn; [tauto|].
  intros H. destruct (decide (k = k')) as [->|Hne]; cbn; [reflexivity|].
  f_equal. apply IH. destruct H; [congruence|assumption].
Qed.

Lemma keys_dict_set_new k v d :
  ~ In k (map fst d) -> map fst (dict_set k v d) = map fst d ++ [k].
Proof.
  induction d as [|[k' v'] d IH]; cbn; [reflexivity|].
  intros H. destruct (decide (k = k')) as [->|Hne]; cbn.
  - exfalso. apply H. now left.
  - f_equal. apply IH. tauto.
Qed.

Lemma NoDup_dict_set k v d :
  List.NoDup (map fst d) -> List.NoDup (map fst (dict_set k v d)).
Proof.
  intros Hnd. destruct (in_dec (fun a b => decide (a = b)) k (map fst d)) as [Hin|Hin].
  - rewrite keys_dict_set_in by exact Hin. exact Hnd.
  - rewrite keys_dict_set_new by exact Hin.
    apply NoDup_rev in Hnd. rewrite <- (rev_involutive (_ ++ _)).
    apply NoDup_rev. rewrite rev_app_distr. cbn. constructor; [|exact Hnd].
    rewrite <- in_rev. exact Hin.
Qed.

Lemma values_dict_set_In k v d x :
  In x (dict_set k v d) -> In x d \/ x = (k, v).
Proof.
  induction d as [|[k' v'] d IH]; cbn.
  - intros [<-|[]]. now right.
  - destruct (decide (k = k')) as [->|Hne]; cbn.
    + intros [<-|H]; [now right|]. left. now right.
    + intros [<-|H]; [left; now left|].
      destruct (IH H); [left; now right|now right].
Qed.

Lemma dict_del_absent k d : ~ In k (map fst d) -> dict_del k d = d.
Proof.
  induction d as [|[k' v'] d IH]; cbn; [reflexivity|].
  intros H. destruct (decide (k = k')) as [->|Hne].
  - exfalso. apply H. now left.
  - f_equal. apply IH. tauto.
Qed.

Lemma dict_del_In k d x : In x (dict_del k d) -> In x d.
Proof.
  induction d as [|[k' v'] d IH]; cbn; [tauto|].
  destruct (decide (k = k')) as [->|Hne]; cbn; [now right|].
  intros [<-|H]; [now left|right; auto].
Qed.

Lemma NoDup_dict_del k d :
  List.NoDup (map fst d) -> List.NoDup (map fst (dict_del k d)).
Proof.
  induction d as [|[k' v'] d IH]; cbn; [trivial|].
  intros Hnd. inversion Hnd as [|? ? Hni Hnd']; subst.
  destruct (decide (k = k')) as [->|Hne]; cbn; [exact Hnd'|].
  constructor; [|auto].
  intros Hin. apply Hni. apply in_map_iff in Hin as (x & Hx & Hin).
  apply in_map_iff. exists x. split; [exact Hx|].
  eapply dict_del_In. exact Hin.
Qed.

Lemma entries_of_absent k d : ~ In k (map fst d) -> entries_of k d = [].
Proof.
  induction d as [|[k' v'] d IH]; cbn; [reflexivity|].
  intros H. rewrite bool_decide_eq_false_2 by tauto. apply IH. tauto.
Qed.

Lemma entries_of_unique k v d :
  List.NoDup (map fst d) -> dict_get k d = Some v -> entries_of k d = [(k, v)].
Proof.
  induction d as [|[k' v'] d IH]; cbn; [discriminate|].
  intros Hnd. inversion Hnd as [|? ? Hni Hnd']; subst.
  destruct (decide (k = k')) as [->|Hne].
  - intros [= ->]. rewrite bool_decide_eq_true_2 by reflexivity.
    f_equal. apply entries_of_absent. exact Hni.
  - intros H. rewrite bool_decide_eq_false_2 by congruence. auto.
Qed.

End Dict.

(** ** Properties: computations on the state *)

Lemma world_eta w : {| heap := heap w; data := data w |} = w.
Proof. destruct w; reflexivity. Qed.

Lemma call_Some {A} l (m : SE record A) w self :
  heap w !! l = Some self ->
  call l m w
  = (fst (m self),
     {| heap := <[l := snd (m self)]> (heap w); data := data w |}).
Proof.
  intros H. unfold call, deref, bind, get, ret. cbn. rewrite H.
  destruct (m self); reflexivity.
Qed.

Lemma call_None {A} l (m : SE record A) w :
  heap w !! l = None ->
  call l m w = (Raise (AttributeError (lit "no such object")), w).
Proof.
  intros H. unfold call, deref, bind, get, raise. cbn. rewrite H. reflexivity.
Qed.

Lemma find_eq n w : Book.find n w = (Return (dict_get n (data w)), w).
Proof. reflexivity. Qed.

Lemma after_bind {S A B} (m : SE S A) (f : A -> SE S B) s :
  snd (bind m f s)
  = match fst (m s) with
    | Return a => snd (f a (snd (m s)))
    | Raise _ => snd (m s)
    end.
Proof. unfold bind. destruct (m s) as [[a|e] s']; reflexivity. Qed.

Lemma after_input_error {S} (f : SE S pyval) s :
  snd (input_error f s) = snd (f s).
Proof.
  unfold input_error. destruct (f s) as [[v|[]] s']; reflexivity.
Qed.

Section Preserves.
Variable P : world -> Prop.

Lemma pres_ret {A} (a : A) : preserves P (ret a).
Proof. intros w H. exact H. Qed.

Lemma pres_raise {A} e : preserves P (@raise world A e).
Proof. intros w H. exact H. Qed.

Lemma pres_lift {A} (o : outcome A) : preserves P (lift o).
Proof. intros w H. exact H. Qed.

Lemma pres_get : preserves P get.
Proof. intros w H. exact H. Qed.

Lemma pres_find n : preserves P (Book.find n).
Proof. intros w H. exact H. Qed.

Lemma pres_bind {A B} (m : SE world A) (f : A -> SE world B) :
  preserves P m -> (forall a, preserves P (f a)) -> preserves P (bind m f).
Proof.
  intros Hm Hf w H. unfold after. rewrite after_bind.
  specialize (Hm w H). unfold after in Hm.
  destruct (fst (m w)); [apply Hf|]; exact Hm.
Qed.

Lemma pres_input_error (f : SE world pyval) :
  preserves P f -> preserves P (input_error f).
Proof.
  intros Hf w H. unfold after. rewrite after_input_error. apply Hf, H.
Qed.

Lemma pres_upcoming t : preserves P (Book.get_upcoming_birthdays t).
Proof. apply pres_bind; [apply pres_get|intros; apply pres_lift]. Qed.

Lemma pres_parse_input lower line : preserves P (parse_input lower line).
Proof.
  apply pres_input_error, pres_bind; [apply pres_lift|intros; apply pres_ret].
Qed.

(** What is asked of the operations that write to the state. *)
Hypothesis pres_new_record : forall n, preserves P (new_record n).
Hypothesis pres_call : forall A l (m : SE record A),
  (forall r, record_ok r -> record_ok (snd (m r))) -> preserves P (call l m).
Hypothesis pres_add_record : forall l, preserves P (Book.add_record l).
Hypothesis pres_delete : forall n, preserves P (Book.delete n).

Lemma pres_call_opt {A} ol (m : SE record A) :
  (forall r, record_ok r -> record_ok (snd (m r))) ->
  preserves P (call_opt ol m).
Proof.
  intros Hm. destruct ol; [apply pres_call, Hm|apply pres_raise].
Qed.

End Preserves.

(** ** Properties: Record *)

Lemma find_phone_in_None ps phone :
  Rec.find_phone_in ps phone = None <-> Forall (fun p => value p <> phone) ps.
Proof.
  induction ps as [|p ps IH]; cbn.
  - split; [constructor|reflexivity].
  - destruct (decide (value p = phone)) as [Heq|Hne].
    + split; [discriminate|]. intros H. inversion H; contradiction.
    + destruct (Rec.find_phone_in ps phone) eqn:Hf; cbn.
      * split; [discriminate|]. intros H. inversion H; subst.
        apply IH in H3. discriminate.
      * split; [|reflexivity]. intros _. constructor; [exact Hne|].
        apply IH. reflexivity.
Qed.

Lemma find_phone_in_Some ps phone i :
  Rec.find_phone_in ps phone = Some i ->
  exists p, ps !! i = Some p /\ value p = phone.
Proof.
  revert i. induction ps as [|p ps IH]; cbn; [discriminate|].
  intros i. destruct (decide (value p = phone)) as [Heq|Hne].
  - intros [= <-]. exists p. split; [reflexivity|exact Heq].
  - destruct (Rec.find_phone_in ps phone) as [j|] eqn:Hf; cbn; [|discriminate].
    intros [= <-]. destruct (IH j eq_refl) as (q & Hq & Hv).
    exists q. split; assumption.
Qed.

Lemma edit_phone_absent self old_phone new_phone :
  Forall (fun p => value p <> old_phone) (phones self) ->
  Rec.edit_phone old_phone new_phone self
  = (Raise (ValueError (lit "Phone not found")), self).
Proof.
  intros H. apply find_phone_in_None in H.
  unfold Rec.edit_phone, Rec.find_phone, bind, get, ret, raise. cbn.
  rewrite H. reflexivity.
Qed.

Lemma remove_phone_absent self phone :
  Forall (fun p => value p <> phone) (phones self) ->
  Rec.remove_phone phone self
  = (Raise (ValueError (lit "Phone not found")), self).
Proof.
  intros H. apply find_phone_in_None in H.
  unfold Rec.remove_phone, Rec.find_phone, bind, get, ret, raise. cbn.
  rewrite H. reflexivity.
Qed.

(** The outcomes of the three phone methods, case by case. *)
Lemma add_phone_cases phone self :
  (exists p, Phone_init phone = Return p /\ valid_phone phone
             /\ Rec.add_phone phone self
                = (Return tt, set_phones (phones self ++ [p]) self)
             /\ value p = phone)
  \/ (exists e, Rec.add_phone phone self = (Raise e, self)).
Proof.
  unfold Rec.add_phone, bind, lift, get, put.
  destruct (Phone_init phone) as [p|e] eqn:Hp.
  - left. exists p. apply Phone_init_Return in Hp as [Hv Hval]. auto.
  - right. exists e. reflexivity.
Qed.

Lemma remove_phone_cases phone self :
  (exists i, Rec.find_phone_in (phones self) phone = Some i
             /\ Rec.remove_phone phone self
                = (Return tt, set_phones (delete i (phones self)) self))
  \/ (exists e, Rec.remove_phone phone self = (Raise e, self)).
Proof.
  unfold Rec.remove_phone, Rec.find_phone, bind, get, put, ret, raise. cbn.
  destruct (Rec.find_phone_in (phones self) phone) as [i|] eqn:Hf.
  - left. exists i. auto.
  - right. eexists. reflexivity.
Qed.

Lemma edit_phone_cases old_phone new_phone self :
  (exists i, Rec.find_phone_in (phones self) old_phone = Some i
             /\ valid_phone new_phone
             /\ Rec.edit_phone old_phone new_phone self
                = (Return tt,
                   set_phones (<[i := {| value := new_phone |}]> (phones self))
                     self))
  \/ (exists e, Rec.edit_phone old_phone new_phone self = (Raise e, self)).
Proof.
  unfold Rec.edit_phone, Rec.find_phone, bind, get, put, ret, raise, lift. cbn.
  destruct (Rec.find_phone_in (phones self) old_phone) as [i|] eqn:Hf.
  - destruct (Phone_init new_phone) as [p|e] eqn:Hp.
    + left. exists i. apply Phone_init_Return in Hp as [Hv Hval].
      rewrite Hval. auto.
    + right. exists e. reflexivity.
  - right. eexists. reflexivity.
Qed.

Lemma add_birthday_cases b self :
  (exists d, Rec.add_birthday b self = (Return tt, set_birthday (Some d) self))
  \/ (exists e, Rec.add_birthday b self = (Raise e, self)).
Proof.
  unfold Rec.add_birthday, bind, lift, get, put.
  destruct (Birthday_init b) as [d|e].
  - left. exists d. reflexivity.
  - right. exists e. reflexivity.
Qed.

Lemma add_phone_ok phone r :
  record_ok r -> record_ok (snd (Rec.add_phone phone r)).
Proof.
  intros H. destruct (add_phone_cases phone r)
    as [(p & _ & Hv & -> & Hval)|(e & ->)]; [|exact H].
  unfold record_ok in *. cbn. apply Forall_app. split; [exact H|].
  constructor; [|constructor]. rewrite Hval. exact Hv.
Qed.

Lemma remove_phone_ok phone r :
  record_ok r -> record_ok (snd (Rec.remove_phone phone r)).
Proof.
  intros H. destruct (remove_phone_cases phone r)
    as [(i & _ & ->)|(e & ->)]; [|exact H].
  unfold record_ok in *. cbn. apply Forall_delete. exact H.
Qed.

Lemma edit_phone_ok old_phone new_phone r :
  record_ok r -> record_ok (snd (Rec.edit_phone old_phone new_phone r)).
Proof.
  intros H. destruct (edit_phone_cases old_phone new_phone r)
    as [(i & _ & Hv & ->)|(e & ->)]; [|exact H].
  unfold record_ok in *. cbn. apply Forall_insert; assumption.
Qed.

Lemma add_birthday_ok b r :
  record_ok r -> record_ok (snd (Rec.add_birthday b r)).
Proof.
  intros H. destruct (add_birthday_cases b r) as [(d & ->)|(e & ->)]; exact H.
Qed.

Lemma getter_ok {A} (f : record -> A) r :
  record_ok r -> record_ok (snd ((self <- get ;; ret (f self))%se r)).
Proof. intros H. exact H. Qed.

Lemma init_phones n r : Rec.init n = Return r -> phones r = [] /\ value (name r) = n.
Proof.
  unfold Rec.init, Name_init. destruct n; cbn; [discriminate|].
  intros [= <-]. split; reflexivity.
Qed.

(** ** Properties: every operation keeps an invariant of the state *)

Section Invariant.
Variable P : world -> Prop.
Hypothesis pres_new_record : forall n, preserves P (new_record n).
Hypothesis pres_call : forall A l (m : SE record A),
  (forall r, record_ok r -> record_ok (snd (m r))) -> preserves P (call l m).
Hypothesis pres_add_record : forall l, preserves P (Book.add_record l).
Hypothesis pres_delete : forall n, preserves P (Book.delete n).

Ltac pres_step :=
  first
    [ apply pres_ret | apply pres_raise | apply pres_lift | apply pres_get
    | apply pres_find | apply pres_upcoming | apply pres_new_record
    | apply pres_add_record | apply pres_delete
    | apply pres_call; intros; first
        [ apply add_phone_ok | apply edit_phone_ok | apply remove_phone_ok
        | apply add_birthday_ok | apply getter_ok ]; assumption
    | apply pres_call_opt; [exact pres_call|]; intros; first
        [ apply add_phone_ok | apply edit_phone_ok | apply remove_phone_ok
        | apply add_birthday_ok | apply getter_ok ]; assumption
    | apply pres_input_error
    | apply pres_bind; [|intros ?]
    | match goal with
      | |- preserves _ (match ?x with _ => _ end) => destruct x
      end ].

Lemma pres_add_contact args : preserves P (add_contact args).
Proof. unfold add_contact. repeat pres_step. Qed.

Lemma pres_change_contact args : preserves P (change_contact args).
Proof. unfold change_contact. repeat pres_step. Qed.

Lemma pres_show_phones args : preserves P (show_phones args).
Proof. unfold show_phones. repeat pres_step. Qed.

Lemma pres_show_all args : preserves P (show_all args).
Proof. unfold show_all. repeat pres_step. Qed.

Lemma pres_add_birthday args : preserves P (add_birthday args).
Proof. unfold add_birthday. repeat pres_step. Qed.

Lemma pres_show_birthday args : preserves P (show_birthday args).
Proof. unfold show_birthday. repeat pres_step. Qed.

Lemma pres_birthdays t args : preserves P (birthdays t args).
Proof. unfold birthdays. repeat pres_step. Qed.

Lemma pres_main_turn lower t line : preserves P (main_turn lower t line).
Proof.
  unfold main_turn.
  apply pres_bind; [apply pres_parse_input|intros parsed].
  apply pres_bind; [apply pres_lift|intros ca].
  repeat match goal with
         | |- preserves _ (if ?b then _ else _) => destruct b
         end;
    try (apply pres_bind; [|intros ?]);
    first [ apply pres_ret | apply pres_get | apply pres_add_contact
          | apply pres_change_contact | apply pres_show_phones
          | apply pres_show_all | apply pres_add_birthday
          | apply pres_show_birthday | apply pres_birthdays ].
Qed.

Lemma pres_perform a w : P w -> P (perform a w).
Proof.
  destruct a; cbn [perform].
  - apply pres_new_record.
  - apply pres_call, add_phone_ok.
  - apply pres_call, remove_phone_ok.
  - apply pres_call, edit_phone_ok.
  - apply pres_call, add_birthday_ok.
  - apply pres_add_record.
  - apply pres_delete.
  - apply pres_add_contact.
  - apply pres_change_contact.
  - apply pres_add_birthday.
  - apply pres_main_turn.
Qed.

Lemma reachable_invariant w : P empty_world -> reachable w -> P w.
Proof.
  intros H0 Hr. induction Hr as [|a w Hr IH]; [exact H0|].
  apply pres_perform, IH.
Qed.

End Invariant.

(** ** Properties: AddressBook *)

Lemma new_record_eq n w :
  new_record n w
  = match Rec.init n with
    | Return r =>
        (Return (length (heap w)),
         {| heap := heap w ++ [r]; data := data w |})
    | Raise e => (Raise e, w)
    end.
Proof.
  unfold new_record, bind, lift, get, put, ret.
  destruct (Rec.init n); reflexivity.
Qed.

Lemma add_record_Some l w r :
  heap w !! l = Some r ->
  Book.add_record l w
  = (Return tt,
     {| heap := heap w; data := dict_set (value (name r)) l (data w) |}).
Proof.
  intros H. unfold Book.add_record, deref, bind, get, put, ret. cbn.
  rewrite H. reflexivity.
Qed.

Lemma add_record_None l w :
  heap w !! l = None ->
  Book.add_record l w = (Raise (AttributeError (lit "no such object")), w).
Proof.
  intros H. unfold Book.add_record, deref, bind, get, raise. cbn.
  rewrite H. reflexivity.
Qed.

Lemma delete_eq n w :
  Book.delete n w
  = match dict_get n (data w) with
    | None => (Raise (KeyError (lit "Record not found")), w)
    | Some _ => (Return tt, {| heap := heap w; data := dict_del n (data w) |})
    end.
Proof.
  unfold Book.delete, Book.find, bind, get, put, ret, raise. cbn.
  destruct (dict_get n (data w)); reflexivity.
Qed.

Lemma phones_ok_new_record n : preserves phones_ok (new_record n).
Proof.
  intros w H. unfold after. rewrite new_record_eq.
  destruct (Rec.init n) as [r|e] eqn:Hr; [|exact H].
  apply init_phones in Hr as [Hp _]. unfold phones_ok in *. cbn.
  apply Forall_app. split; [exact H|]. constructor; [|constructor].
  unfold record_ok. rewrite Hp. constructor.
Qed.

Lemma phones_ok_call A l (m : SE record A) :
  (forall r, record_ok r -> record_ok (snd (m r))) ->
  preserves phones_ok (call l m).
Proof.
  intros Hm w H. unfold after. destruct (heap w !! l) as [self|] eqn:Hl.
  - rewrite (call_Some _ _ _ _ Hl). unfold phones_ok in *. cbn.
    apply Forall_insert; [exact H|]. apply Hm.
    eapply Forall_lookup_1; eassumption.
  - rewrite (call_None _ _ _ Hl). exact H.
Qed.

Lemma phones_ok_add_record l : preserves phones_ok (Book.add_record l).
Proof.
  intros w H. unfold after. destruct (heap w !! l) as [r|] eqn:Hl.
  - rewrite (add_record_Some _ _ _ Hl). exact H.
  - rewrite (add_record_None _ _ Hl). exact H.
Qed.

Lemma phones_ok_delete n : preserves phones_ok (Book.delete n).
Proof.
  intros w H. unfold after. rewrite delete_eq.
  destruct (dict_get n (data w)); exact H.
Qed.

Lemma refs_ok_new_record n : preserves refs_ok (new_record n).
Proof.
  intros w [Hnd Hr]. unfold after. rewrite new_record_eq.
  destruct (Rec.init n) as [r|e]; [|split; assumption].
  split; [exact Hnd|]. cbn. eapply Forall_impl; [exact Hr|].
  intros kv Hkv. cbn in *. rewrite length_app. cbn. lia.
Qed.

Lemma refs_ok_call A l (m : SE record A) :
  (forall r, record_ok r -> record_ok (snd (m r))) ->
  preserves refs_ok (call l m).
Proof.
  intros _ w [Hnd Hr]. unfold after. destruct (heap w !! l) as [self|] eqn:Hl.
  - rewrite (call_Some _ _ _ _ Hl). split; [exact Hnd|]. cbn.
    rewrite length_insert. exact Hr.
  - rewrite (call_None _ _ _ Hl). split; assumption.
Qed.

Lemma refs_ok_add_record l : preserves refs_ok (Book.add_record l).
Proof.
  intros w [Hnd Hr]. unfold after. destruct (heap w !! l) as [r|] eqn:Hl.
  - rewrite (add_record_Some _ _ _ Hl). split; cbn.
    + apply NoDup_dict_set. exact Hnd.
    + apply Forall_forall. intros kv Hin. apply list_elem_of_In in Hin.
      apply values_dict_set_In in Hin as [Hin| ->].
      * rewrite Forall_forall in Hr. apply Hr, list_elem_of_In, Hin.
      * cbn. eapply lookup_lt_Some. exact Hl.
  - rewrite (add_record_None _ _ Hl). split; assumption.
Qed.

Lemma refs_ok_delete n : preserves refs_ok (Book.delete n).
Proof.
  intros w [Hnd Hr]. unfold after. rewrite delete_eq.
  destruct (dict_get n (data w)); [|split; assumption].
  split; cbn.
  - apply NoDup_dict_del. exact Hnd.
  - apply Forall_forall. intros kv Hin. apply list_elem_of_In in Hin.
    apply dict_del_In in Hin. rewrite Forall_forall in Hr.
    apply Hr, list_elem_of_In, Hin.
Qed.

Lemma reachable_phones_ok w : reachable w -> phones_ok w.
Proof.
  apply reachable_invariant.
  - apply phones_ok_new_record.
  - apply phones_ok_call.
  - apply phones_ok_add_record.
  - apply phones_ok_delete.
  - constructor.
Qed.

Lemma reachable_refs_ok w : reachable w -> refs_ok w.
Proof.
  apply reachable_invariant.
  - apply refs_ok_new_record.
  - apply refs_ok_call.
  - apply refs_ok_add_record.
  - apply refs_ok_delete.
  - split; constructor.
Qed.

(** C9.  In every reachable state every phone of every record is a string
    of exactly ten decimal digits.  A new [Record] has no phones; [add_phone],
    [edit_phone] and [remove_phone] keep the property, and when one of them
    raises, the record is as it was before the call. *)
Theorem phones_invariant :
  (forall w, reachable w ->
     forall r p, In r (heap w) -> In p (phones r) ->
       length (value p) = 10%nat /\ all_decimal (value p))
  /\ (forall n r, Rec.init n = Return r -> phones r = [])
  /\ (forall self, record_ok self ->
        forall m,
          (exists phone, m = Rec.add_phone phone)
          \/ (exists old_phone new_phone, m = Rec.edit_phone old_phone new_phone)
          \/ (exists phone, m = Rec.remove_phone phone) ->
          record_ok (snd (m self))
          /\ (forall e, fst (m self) = Raise e -> snd (m self) = self)).
Proof.
  split; [|split].
  - intros w Hr r p Hin Hp. apply reachable_phones_ok in Hr.
    unfold phones_ok in Hr. rewrite Forall_forall in Hr.
    specialize (Hr r (proj2 (list_elem_of_In _ _) Hin)).
    unfold record_ok in Hr. rewrite Forall_forall in Hr.
    exact (Hr p (proj2 (list_elem_of_In _ _) Hp)).
  - intros n r H. apply init_phones in H. tauto.
  - intros self Hok m [(phone & ->)|[(o & n & ->)|(phone & ->)]].
    + split; [apply add_phone_ok, Hok|].
      destruct (add_phone_cases phone self)
        as [(p & _ & _ & -> & _)|(e & ->)]; [discriminate|reflexivity].
    + split; [apply edit_phone_ok, Hok|].
      destruct (edit_phone_cases o n self)
        as [(i & _ & _ & ->)|(e & ->)]; [discriminate|reflexivity].
    + split; [apply remove_phone_ok, Hok|].
      destruct (remove_phone_cases phone self)
        as [(i & _ & ->)|(e & ->)]; [discriminate|reflexivity].
Qed.

Lemma phones_invariant_witness :
  (length (lit "1234567890") = 10%nat /\ all_decimal (lit "1234567890"))
  /\ record_ok
       (snd (Rec.add_phone (lit "12x")
               {| name := {| value := lit "Jane" |}; phones := [];
                  birthday := None |})).
Proof.
  split.
  - apply (proj1 phones_invariant
             (perform (DoAddContact [lit "Jane"; lit "1234567890"]) empty_world)
             (reach_step _ _ reach_empty)
             {| name := {| value := lit "Jane" |};
                phones := [ {| value := lit "1234567890" |} ];
                birthday := None |}
             {| value := lit "1234567890" |}).
    + vm_compute. left. reflexivity.
    + vm_compute. left. reflexivity.
  - apply (proj2 (proj2 phones_invariant)
             {| name := {| value := lit "Jane" |}; phones := [];
                birthday := None |}).
    + constructor.
    + left. exists (lit "12x"). reflexivity.
Defined.

(** C6.  When no phone of the record has the value [old_phone],
    [edit_phone(old_phone, new_phone)] raises the ValueError "Phone not
    found" (the not-found error of the program) and leaves the record, its
    phone list included, exactly as it was; so does the call through a
    reference into the book. *)
Theorem edit_phone_not_found (self : record) (old_phone new_phone : str) :
  (forall p, In p (phones self) -> value p <> old_phone) ->
  fst (Rec.edit_phone old_phone new_phone self)
  = Raise (ValueError (lit "Phone not found"))
  /\ phones (snd (Rec.edit_phone old_phone new_phone self)) = phones self
  /\ snd (Rec.edit_phone old_phone new_phone self) = self
  /\ forall w l, heap w !! l = Some self ->
       call l (Rec.edit_phone old_phone new_phone) w
       = (Raise (ValueError (lit "Phone not found")), w).
Proof.
  intros H.
  assert (Hf : Forall (fun p => value p <> old_phone) (phones self)).
  { apply Forall_forall. intros p Hp. apply H, list_elem_of_In, Hp. }
  rewrite (edit_phone_absent _ _ new_phone Hf). cbn.
  repeat split; try reflexivity.
  intros w l Hl. rewrite (call_Some _ _ _ _ Hl).
  rewrite (edit_phone_absent _ _ new_phone Hf). cbn.
  rewrite list_insert_id by exact Hl. rewrite world_eta. reflexivity.
Qed.

Lemma edit_phone_not_found_witness :
  let self := {| name := {| value := lit "Jane" |};
                 phones := [ {| value := lit "1234567890" |} ];
                 birthday := None |} in
  fst (Rec.edit_phone (lit "0000000000") (lit "1111111111") self)
  = Raise (ValueError (lit "Phone not found"))
  /\ phones (snd (Rec.edit_phone (lit "0000000000") (lit "1111111111") self))
     = phones self.
Proof.
  intros self.
  destruct (edit_phone_not_found self (lit "0000000000") (lit "1111111111"))
    as (H1 & H2 & _).
  - intros p [<-|[]]. vm_compute. discriminate.
  - split; [exact H1|exact H2].
Defined.

(** No validation raises a [KeyError]: the failures of the field
    constructors are [ValueError]s. *)
Lemma new_date_error y m d e :
  Datetime.new y m d = Raise e -> exists msg, e = ValueError msg.
Proof.
  unfold Datetime.new.
  repeat match goal with
         | |- context [if ?b then _ else _] => destruct b
         end; intros [= <-] || discriminate; eexists; reflexivity.
Qed.

Lemma strptime_error s e :
  Datetime.strptime s = Raise e ->
  (exists msg, e = ValueError msg) \/ (exists msg, e = IndexError msg).
Proof.
  unfold Datetime.strptime.
  destruct (re_match Datetime.format_regex s) as [[caps [|c rest]]|].
  2,3: intros [= <-]; left; eexists; reflexivity.
  destruct (group "Y" caps) as [ty|], (group "m" caps) as [tm|],
    (group "d" caps) as [td|];
    try (intros [= <-]; right; eexists; reflexivity).
  destruct (int_of_str ty), (int_of_str tm), (int_of_str td);
    try (intros [= <-]; left; eexists; reflexivity).
  intros H. left. eapply new_date_error. exact H.
Qed.

Lemma validation_not_KeyError s k :
  Name_init s <> Raise (KeyError k)
  /\ Phone_init s <> Raise (KeyError k)
  /\ Birthday_init s <> Raise (KeyError k).
Proof.
  split; [|split].
  - unfold Name_init. destruct s; discriminate.
  - unfold Phone_init. destruct (re_fullmatch phone_re s); discriminate.
  - unfold Birthday_init. destruct (Datetime.strptime s) as [d|e] eqn:H.
    + discriminate.
    + apply strptime_error in H as [(msg & ->)|(msg & ->)]; discriminate.
Qed.

(** C8.  On a book that has no record under [n] (the empty book among
    them), [delete(n)] raises the KeyError "Record not found" and leaves the
    state unchanged, and [find(n)] returns [None] without raising.  The
    error is of another class than the errors of validation, which are never
    a [KeyError]. *)
Theorem delete_absent (w : world) (n : str) :
  ~ In n (map fst (data w)) ->
  Book.delete n w = (Raise (KeyError (lit "Record not found")), w)
  /\ Book.find n w = (Return None, w)
  /\ (forall s k,
        Name_init s <> Raise (KeyError k)
        /\ Phone_init s <> Raise (KeyError k)
        /\ Birthday_init s <> Raise (KeyError k)).
Proof.
  intros H. apply dict_get_None in H.
  rewrite delete_eq, find_eq, H.
  split; [reflexivity|split; [reflexivity|]].
  intros s k. apply validation_not_KeyError.
Qed.

Lemma delete_absent_witness :
  Book.delete (lit "ghost") empty_world
  = (Raise (KeyError (lit "Record not found")), empty_world)
  /\ Book.find (lit "ghost") empty_world = (Return None, empty_world).
Proof.
  destruct (delete_absent empty_world (lit "ghost")) as (H1 & H2 & _).
  - cbn. tauto.
  - split; [exact H1|exact H2].
Defined.

(** ** Properties: the add handler *)

Lemma valid_phone_nonempty p : valid_phone p -> p <> [].
Proof. intros [H _] ->. discriminate. Qed.

Lemma add_phone_valid p self :
  valid_phone p ->
  Rec.add_phone p self
  = (Return tt, set_phones (phones self ++ [ {| value := p |} ]) self).
Proof.
  intros H. unfold Rec.add_phone, bind, lift, get, put.
  rewrite (Phone_init_valid _ H). reflexivity.
Qed.

Lemma add_contact_existing n p rest w l r :
  dict_get n (data w) = Some l -> heap w !! l = Some r -> valid_phone p ->
  add_contact (n :: p :: rest) w
  = (Return (Str (lit "Contact updated.")),
     {| heap := <[l := set_phones (phones r ++ [ {| value := p |} ]) r]> (heap w);
        data := data w |}).
Proof.
  intros Hd Hl Hp. unfold add_contact, input_error, bind.
  rewrite find_eq, Hd. unfold ret at 1. cbn [fst snd].
  destruct p as [|c p]; [exfalso; eapply valid_phone_nonempty; eauto|].
  rewrite (call_Some _ _ _ _ Hl), add_phone_valid by exact Hp.
  reflexivity.
Qed.

Lemma lookup_snoc {A} (l : list A) (x : A) : (l ++ [x]) !! length l = Some x.
Proof. rewrite lookup_app_r by lia. rewrite Nat.sub_diag. reflexivity. Qed.

Lemma add_contact_fresh n p rest w :
  dict_get n (data w) = None -> n <> [] -> valid_phone p ->
  add_contact (n :: p :: rest) w
  = (Return (Str (lit "Contact added.")),
     {| heap := heap w ++ [ {| name := {| value := n |};
                              phones := [ {| value := p |} ];
                              birthday := None |} ];
        data := dict_set n (length (heap w)) (data w) |}).
Proof.
  intros Hd Hn Hp. unfold add_contact, input_error, bind.
  rewrite find_eq, Hd. rewrite new_record_eq.
  unfold Rec.init, Name_init. destruct n as [|c n]; [congruence|].
  cbn [obind].
  erewrite add_record_Some by apply lookup_snoc.
  unfold ret at 1. cbn [fst snd].
  destruct p as [|d p]; [exfalso; eapply valid_phone_nonempty; eauto|].
  erewrite call_Some by apply lookup_snoc.
  rewrite add_phone_valid by exact Hp.
  cbn. f_equal. f_equal.
  rewrite insert_app_r_alt by lia. rewrite Nat.sub_diag. reflexivity.
Qed.

Lemma dict_set_idem {V} k (v : V) d : dict_set k v (dict_set k v d) = dict_set k v d.
Proof.
  induction d as [|[k' v'] d IH]; cbn.
  - destruct (decide (k = k)); [reflexivity|congruence].
  - destruct (decide (k = k')) as [->|Hne]; cbn.
    + destruct (decide (k' = k')); [reflexivity|congruence].
    + destruct (decide (k = k')); [congruence|]. rewrite IH. reflexivity.
Qed.

(** The phones a book has under a name before a command. *)
Lemma add_contact_twice_from w n p1 p2 :
  refs_ok w -> n <> [] -> valid_phone p1 -> valid_phone p2 ->
  exists l r,
    entries_of n (data (after (add_contact [n; p2])
                          (after (add_contact [n; p1]) w))) = [(n, l)]
    /\ heap (after (add_contact [n; p2]) (after (add_contact [n; p1]) w)) !! l
       = Some r
    /\ phones r
       = match dict_get n (data w) with
         | Some l0 =>
             match heap w !! l0 with Some r0 => phones r0 | None => [] end
         | None => []
         end ++ [ {| value := p1 |}; {| value := p2 |} ]
    /\ fst (add_contact [n; p2] (after (add_contact [n; p1]) w))
       = Return (Str (lit "Contact updated.")).
Proof.
  intros [Hnd Hrefs] Hn Hp1 Hp2. unfold after.
  destruct (dict_get n (data w)) as [l|] eqn:Hd.
  - assert (Hlt : (l < length (heap w))%nat).
    { apply dict_get_Some_In in Hd. rewrite Forall_forall in Hrefs.
      apply (Hrefs (n, l)), list_elem_of_In, Hd. }
    destruct (lookup_lt_is_Some_2 _ _ Hlt) as [r Hl].
    rewrite (add_contact_existing _ _ _ _ _ _ Hd Hl Hp1). cbn [snd].
    erewrite add_contact_existing;
      [|exact Hd|cbn; apply list_lookup_insert_eq; exact Hlt|exact Hp2].
    cbn [fst snd heap data]. exists l. eexists. split; [|split; [|split]].
    + apply entries_of_unique; assumption.
    + apply list_lookup_insert_eq. rewrite length_insert. exact Hlt.
    + unfold loc in *. rewrite Hl. cbn. rewrite <- app_assoc. reflexivity.
    + reflexivity.
  - rewrite (add_contact_fresh _ _ _ _ Hd Hn Hp1). cbn [snd].
    erewrite add_contact_existing;
      [|cbn; apply dict_get_set_eq|cbn; apply lookup_snoc|exact Hp2].
    cbn [fst snd heap data]. exists (length (heap w)). eexists.
    split; [|split; [|split]].
    + apply entries_of_unique; [apply NoDup_dict_set; exact Hnd|].
      apply dict_get_set_eq.
    + rewrite insert_app_r_alt by lia. rewrite Nat.sub_diag. cbn.
      apply lookup_snoc.
    + reflexivity.
    + reflexivity.
Qed.

(** C5.  [add_record], given a record object, never raises: it stores the
    record under its name, in place of whatever the name referred to before,
    leaves the other names alone, and doing it again changes nothing.
    Through the add handler, adding the same name twice with two valid phones
    leaves exactly one entry under that name in a reachable book, and its
    record has the phones it had before followed by the two new phones; the
    second call reports an update. *)
Theorem add_record_and_add_handler :
  (forall w l r, heap w !! l = Some r ->
     exists w',
       Book.add_record l w = (Return tt, w')
       /\ Book.find (value (name r)) w' = (Return (Some l), w')
       /\ (forall n', n' <> value (name r) ->
             dict_get n' (data w') = dict_get n' (data w))
       /\ Book.add_record l w' = (Return tt, w'))
  /\ (forall w n p1 p2,
        reachable w -> n <> [] -> valid_phone p1 -> valid_phone p2 ->
        p1 <> p2 ->
        let w1 := after (add_contact [n; p1]) w in
        let w2 := after (add_contact [n; p2]) w1 in
        exists l r,
          entries_of n (data w2) = [(n, l)]
          /\ heap w2 !! l = Some r
          /\ phones r
             = match dict_get n (data w) with
               | Some l0 =>
                   match heap w !! l0 with
                   | Some r0 => phones r0
                   | None => []
                   end
               | None => []
               end ++ [ {| value := p1 |}; {| value := p2 |} ]
          /\ fst (add_contact [n; p2] w1)
             = Return (Str (lit "Contact updated."))).
Proof.
  split.
  - intros w l r Hl. eexists. split; [apply add_record_Some, Hl|].
    split; [|split].
    + rewrite find_eq. cbn. rewrite dict_get_set_eq. reflexivity.
    + intros n' Hne. cbn. apply dict_get_set_ne. congruence.
    + erewrite add_record_Some by (cbn; exact Hl). cbn.
      rewrite dict_set_idem. reflexivity.
  - intros w n p1 p2 Hr Hn Hp1 Hp2 _ w1 w2.
    apply add_contact_twice_from; [apply reachable_refs_ok, Hr|assumption..].
Qed.

Lemma add_record_and_add_handler_witness :
  exists l r,
    entries_of (lit "Jane")
      (data (after (add_contact [lit "Jane"; lit "0987654321"])
               (after (add_contact [lit "Jane"; lit "1234567890"])
                  empty_world)))
    = [(lit "Jane", l)]
    /\ heap (after (add_contact [lit "Jane"; lit "0987654321"])
               (after (add_contact [lit "Jane"; lit "1234567890"])
                  empty_world)) !! l = Some r
    /\ phones r = [ {| value := lit "1234567890" |};
                    {| value := lit "0987654321" |} ].
Proof.
  destruct (proj2 add_record_and_add_handler empty_world (lit "Jane")
              (lit "1234567890") (lit "0987654321"))
    as (l & r & H1 & H2 & H3 & _).
  - apply reach_empty.
  - discriminate.
  - split; [reflexivity|]. apply all_decimal_forallb. reflexivity.
  - split; [reflexivity|]. apply all_decimal_forallb. reflexivity.
  - vm_compute. discriminate.
  - exists l, r. split; [exact H1|]. split; [exact H2|exact H3].
Defined.

(** ** Properties: the calendar *)

Ltac divmod := Z.div_mod_to_equations; lia.

Lemma is_leap_iff y :
  Datetime.is_leap y = true
  <-> (y mod 4 = 0 /\ (y mod 100 <> 0 \/ y mod 400 = 0)).
Proof.
  unfold Datetime.is_leap.
  rewrite andb_true_iff, orb_true_iff, negb_true_iff, !Z.eqb_eq, Z.eqb_neq.
  tauto.
Qed.

Lemma days_before_year_succ y :
  Datetime.days_before_year (y + 1)
  = Datetime.days_before_year y + 365 + (if Datetime.is_leap y then 1 else 0).
Proof.
  unfold Datetime.days_before_year; cbv zeta.
  destruct (Datetime.is_leap y) eqn:Hl.
  - apply is_leap_iff in Hl. divmod.
  - assert (Hn : ~ (y mod 4 = 0 /\ (y mod 100 <> 0 \/ y mod 400 = 0))).
    { rewrite <- is_leap_iff. congruence. }
    divmod.
Qed.

Lemma days_before_year_mono y1 y2 :
  y1 <= y2 -> Datetime.days_before_year y1 <= Datetime.days_before_year y2.
Proof. unfold Datetime.days_before_year; cbv zeta. intros H. divmod. Qed.

Lemma days_before_year_first : Datetime.days_before_year 1 = 0.
Proof. vm_compute. reflexivity. Qed.

Lemma days_before_year_last : Datetime.days_before_year 10000 = 3652059.
Proof. vm_compute. reflexivity. Qed.

Lemma month_cases m :
  1 <= m <= 12 ->
  m = 1 \/ m = 2 \/ m = 3 \/ m = 4 \/ m = 5 \/ m = 6 \/ m = 7 \/ m = 8
  \/ m = 9 \/ m = 10 \/ m = 11 \/ m = 12.
Proof. lia. Qed.

(** Looks up the month tables at a known month. *)
Ltac calc_index :=
  repeat match goal with
         | |- context [Datetime.index ?l ?m] =>
             let v := eval vm_compute in (Datetime.index l m) in
             change (Datetime.index l m) with v
         | H : context [Datetime.index ?l ?m] |- _ =>
             let v := eval vm_compute in (Datetime.index l m) in
             change (Datetime.index l m) with v in H
         end.

Ltac by_month H :=
  apply month_cases in H;
  repeat (destruct H as [H|H]); subst; calc_index.

Lemma date_exists_iff d :
  date_exists d = true
  <-> (1 <= year d <= 9999 /\ 1 <= month d <= 12
       /\ 1 <= day d <= Datetime.days_in_month (year d) (month d)).
Proof.
  unfold date_exists, Datetime.MINYEAR, Datetime.MAXYEAR.
  rewrite !andb_true_iff, !Z.leb_le. tauto.
Qed.

(** The days of a year before and within a month stay within the year. *)
Lemma day_of_year_bounds y m d :
  1 <= m <= 12 -> 1 <= d <= Datetime.days_in_month y m ->
  1 <= Datetime.days_before_month y m + d
    <= 365 + (if Datetime.is_leap y then 1 else 0).
Proof.
  intros Hm Hd. unfold Datetime.days_before_month, Datetime.days_in_month in *.
  by_month Hm; cbn in *; destruct (Datetime.is_leap y); cbn in *; lia.
Qed.

Lemma toordinal_bounds d :
  date_exists d = true -> 1 <= Datetime.toordinal d <= Datetime.MAXORDINAL.
Proof.
  intros H. apply date_exists_iff in H as (Hy & Hm & Hd).
  pose proof (day_of_year_bounds _ _ _ Hm Hd) as Hb.
  unfold Datetime.toordinal, Datetime.ymd2ord, Datetime.MAXORDINAL.
  pose proof (days_before_year_succ (year d)) as Hs.
  pose proof (days_before_year_mono 1 (year d) ltac:(lia)) as H1.
  pose proof (days_before_year_mono (year d + 1) 10000 ltac:(lia)) as H2.
  rewrite days_before_year_first in H1.
  rewrite days_before_year_last in H2.
  lia.
Qed.

Lemma new_Return y m d dt :
  Datetime.new y m d = Return dt
  <-> (date_exists {| year := y; month := m; day := d |} = true
       /\ dt = {| year := y; month := m; day := d |}).
Proof.
  rewrite date_exists_iff. cbn [year month day].
  unfold Datetime.new, Datetime.MINYEAR, Datetime.MAXYEAR.
  destruct (Z.leb_spec 1 y), (Z.leb_spec y 9999); cbn;
    try (split; [discriminate|lia]).
  destruct (Z.leb_spec 1 m), (Z.leb_spec m 12); cbn;
    try (split; [discriminate|lia]).
  destruct (Z.leb_spec 1 d), (Z.leb_spec d (Datetime.days_in_month y m)); cbn;
    try (split; [discriminate|lia]).
  split.
  - intros [= <-]. split; [lia|reflexivity].
  - intros [_ ->]. reflexivity.
Qed.

Lemma new_exists y m d :
  date_exists {| year := y; month := m; day := d |} = true ->
  Datetime.new y m d = Return {| year := y; month := m; day := d |}.
Proof. intros H. apply new_Return. tauto. Qed.

(** The last day of the calendar is a Friday, so moving a Saturday or a
    Sunday to the next Monday never leaves the calendar. *)
Lemma add_days_weekend c :
  date_exists c = true ->
  (Datetime.weekday c = 5 ->
   Datetime.add_days c 2 = Return (Datetime.fromordinal (Datetime.toordinal c + 2)))
  /\ (Datetime.weekday c = 6 ->
      Datetime.add_days c 1 = Return (Datetime.fromordinal (Datetime.toordinal c + 1))).
Proof.
  intros H. apply toordinal_bounds in H.
  unfold Datetime.weekday, Datetime.add_days, Datetime.MAXORDINAL in *.
  split; intros Hw.
  - replace ((0 <? Datetime.toordinal c + 2) && (Datetime.toordinal c + 2 <=? 3652059))
      with true; [reflexivity|].
    symmetry. apply andb_true_iff. rewrite Z.ltb_lt, Z.leb_le. divmod.
  - replace ((0 <? Datetime.toordinal c + 1) && (Datetime.toordinal c + 1 <=? 3652059))
      with true; [reflexivity|].
    symmetry. apply andb_true_iff. rewrite Z.ltb_lt, Z.leb_le. divmod.
Qed.

Ltac calc_pred :=
  repeat match goal with
         | |- context [Z.pos ?p - 1] =>
             let v := eval vm_compute in (Z.pos p - 1) in
             change (Z.pos p - 1) with v
         end.

(** The day count of a year given by its place in the cycles of 400, 100
    and 4 years. *)
Lemma days_before_year_cycles n400 n100 n4 n1 :
  0 <= n100 <= 3 -> 0 <= n4 <= 24 -> 0 <= n1 <= 3 ->
  Datetime.days_before_year (n400 * 400 + 1 + n100 * 100 + n4 * 4 + n1)
  = n400 * 146097 + n100 * 36524 + n4 * 1461 + n1 * 365.
Proof.
  intros H100 H4 H1. unfold Datetime.days_before_year; cbv zeta.
  replace (n400 * 400 + 1 + n100 * 100 + n4 * 4 + n1 - 1)
    with (n400 * 400 + n100 * 100 + n4 * 4 + n1) by lia.
  assert ((n400 * 400 + n100 * 100 + n4 * 4 + n1) / 4 = n400 * 100 + n100 * 25 + n4) by divmod.
  assert ((n400 * 400 + n100 * 100 + n4 * 4 + n1) / 100 = n400 * 4 + n100) by divmod.
  assert ((n400 * 400 + n100 * 100 + n4 * 4 + n1) / 400 = n400) by divmod.
  lia.
Qed.

Lemma is_leap_cycles n400 n100 n4 n1 :
  0 <= n100 <= 3 -> 0 <= n4 <= 24 -> 0 <= n1 <= 3 ->
  Datetime.is_leap (n400 * 400 + 1 + n100 * 100 + n4 * 4 + n1)
  = (n1 =? 3) && (negb (n4 =? 24) || (n100 =? 3)).
Proof.
  intros H100 H4 H1. unfold Datetime.is_leap.
  set (y := n400 * 400 + 1 + n100 * 100 + n4 * 4 + n1).
  assert (E4 : y mod 4 = (n1 + 1) mod 4) by (subst y; divmod).
  assert (E100 : y mod 100 = (n4 * 4 + n1 + 1) mod 100) by (subst y; divmod).
  assert (E400 : y mod 400 = (n100 * 100 + n4 * 4 + n1 + 1) mod 400) by (subst y; divmod).
  rewrite E4, E100, E400.
  destruct (Z.eqb_spec n1 3) as [->|Hn1].
  - change ((3 + 1) mod 4 =? 0) with true. cbn [andb].
    destruct (Z.eqb_spec n4 24) as [->|Hn4].
    + change ((24 * 4 + 3 + 1) mod 100 =? 0) with true. cbn [negb orb].
      destruct (Z.eqb_spec n100 3) as [->|Hn100]; [reflexivity|].
      apply Z.eqb_neq. divmod.
    + cbn [negb orb]. replace ((n4 * 4 + 3 + 1) mod 100 =? 0) with false; [reflexivity|].
      symmetry. apply Z.eqb_neq. divmod.
  - cbn [andb]. replace ((n1 + 1) mod 4 =? 0) with false; [reflexivity|].
    symmetry. apply Z.eqb_neq. divmod.
Qed.

Lemma ord2ymd_cycles n :
  exists q400 q100 q4 q1 r,
    n - 1 = q400 * 146097 + q100 * 36524 + q4 * 1461 + q1 * 365 + r
    /\ 0 <= q100 <= 4 /\ 0 <= q4 <= 24 /\ 0 <= q1 <= 4 /\ 0 <= r <= 364
    /\ (q100 = 4 -> q4 = 0 /\ q1 = 0 /\ r = 0)
    /\ (q1 = 4 -> q4 <= 23 /\ r = 0)
    /\ Datetime.ord2ymd n
       = let y := q400 * 400 + 1 + q100 * 100 + q4 * 4 + q1 in
         if (q1 =? 4) || (q100 =? 4) then (y - 1, 12, 31)
         else
           let leapyear := (q1 =? 3) && (negb (q4 =? 24) || (q100 =? 3)) in
           let m := (r + 50) / 32 in
           let preceding :=
             Datetime.index Datetime.DAYS_BEFORE_MONTH m
             + (if (2 <? m) && leapyear then 1 else 0) in
           if r <? preceding
           then (y, m - 1,
                 r - (preceding
                      - (Datetime.index Datetime.DAYS_IN_MONTH (m - 1)
                         + (if (m - 1 =? 2) && leapyear then 1 else 0))) + 1)
           else (y, m, r - preceding + 1).
Proof.
  unfold Datetime.ord2ymd, Datetime.DI400Y, Datetime.DI100Y, Datetime.DI4Y.
  cbv zeta.
  set (n0 := n - 1).
  set (q400 := n0 / 146097). set (r400 := n0 mod 146097).
  set (q100 := r400 / 36524). set (r100 := r400 mod 36524).
  set (q4 := r100 / 1461). set (r4 := r100 mod 1461).
  set (q1 := r4 / 365). set (r := r4 mod 365).
  exists q400, q100, q4, q1, r.
  rewrite Z.shiftr_div_pow2 by lia. change (2 ^ 5) with 32.
  repeat split; try reflexivity; subst q400 r400 q100 r100 q4 r4 q1 r; divmod.
Qed.

Lemma ymd2ord_ord2ymd n :
  let '(y, m, d) := Datetime.ord2ymd n in
  Datetime.ymd2ord y m d = n
  /\ 1 <= m <= 12 /\ 1 <= d <= Datetime.days_in_month y m.
Proof.
  destruct (ord2ymd_cycles n)
    as (q400 & q100 & q4 & q1 & r & Hn & H100 & H4 & H1 & Hr & Hb100 & Hb1 & ->).
  cbv zeta.
  destruct (Z.eqb_spec q1 4) as [E1|E1]; cbn [orb].
  { destruct (Hb1 E1) as [H4' ->]. subst q1.
    assert (H100' : 0 <= q100 <= 3) by lia.
    replace (q400 * 400 + 1 + q100 * 100 + q4 * 4 + 4 - 1)
      with (q400 * 400 + 1 + q100 * 100 + q4 * 4 + 3) by lia.
    unfold Datetime.ymd2ord, Datetime.days_before_month, Datetime.days_in_month.
    rewrite days_before_year_cycles, is_leap_cycles by lia.
    calc_index. change (3 =? 3) with true. 
    replace (q4 =? 24) with false by (symmetry; apply Z.eqb_neq; lia).
    cbn. lia. }
  destruct (Z.eqb_spec q100 4) as [E100|E100].
  { destruct (Hb100 E100) as (-> & -> & ->). subst q100.
    replace (q400 * 400 + 1 + 4 * 100 + 0 * 4 + 0 - 1)
      with (q400 * 400 + 1 + 3 * 100 + 24 * 4 + 3) by lia.
    unfold Datetime.ymd2ord, Datetime.days_before_month, Datetime.days_in_month.
    rewrite days_before_year_cycles, is_leap_cycles by lia.
    calc_index. cbn. lia. }
  assert (H100' : 0 <= q100 <= 3) by lia.
  assert (H1' : 0 <= q1 <= 3) by lia.
  set (y := q400 * 400 + 1 + q100 * 100 + q4 * 4 + q1).
  assert (Hleap : Datetime.is_leap y
                  = (q1 =? 3) && (negb (q4 =? 24) || (q100 =? 3)))
    by (apply is_leap_cycles; lia).
  rewrite <- Hleap. clear Hleap.
  assert (Hdby : Datetime.days_before_year y
                 = q400 * 146097 + q100 * 36524 + q4 * 1461 + q1 * 365)
    by (apply days_before_year_cycles; lia).
  remember ((r + 50) / 32) as m eqn:Hm.
  assert (Hm' : 32 * m <= r + 50 < 32 * m + 32) by (subst m; divmod).
  assert (Hmr : 1 <= m <= 12) by lia.
  clearbody y. clear Hm.
  by_month Hmr; destruct (Datetime.is_leap y) eqn:Hl;
    cbn -[Z.add Z.sub Z.mul Z.ltb];
    match goal with
    | |- context [r <? ?p] => destruct (Z.ltb_spec r p)
    end;
    unfold Datetime.ymd2ord, Datetime.days_before_month, Datetime.days_in_month;
    calc_pred; rewrite ?Hdby, ?Hl; calc_index; cbn in *; lia.
Qed.

Lemma toordinal_fromordinal n :
  Datetime.toordinal (Datetime.fromordinal n) = n.
Proof.
  unfold Datetime.toordinal, Datetime.fromordinal.
  pose proof (ymd2ord_ord2ymd n) as H.
  destruct (Datetime.ord2ymd n) as [[y m] d]. cbn. tauto.
Qed.

Lemma fromordinal_exists n :
  1 <= n <= Datetime.MAXORDINAL -> date_exists (Datetime.fromordinal n) = true.
Proof.
  unfold Datetime.MAXORDINAL. intros Hn. apply date_exists_iff.
  unfold Datetime.fromordinal.
  pose proof (ymd2ord_ord2ymd n) as H.
  destruct (Datetime.ord2ymd n) as [[y m] d]. cbn [year month day].
  destruct H as (Ho & Hm & Hd). split; [|tauto].
  pose proof (day_of_year_bounds _ _ _ Hm Hd) as Hb.
  unfold Datetime.ymd2ord in Ho.
  pose proof (days_before_year_succ y) as Hs.
  destruct (Z_le_gt_dec y 0) as [Hy0|Hy0].
  - pose proof (days_before_year_mono (y + 1) 1 ltac:(lia)) as H1.
    rewrite days_before_year_first in H1. lia.
  - destruct (Z_le_gt_dec 10000 y) as [Hy1|Hy1]; [|lia].
    pose proof (days_before_year_mono 10000 y ltac:(lia)) as H1.
    rewrite days_before_year_last in H1. lia.
Qed.

(** ** Properties: the upcoming birthdays *)

Lemma new_not_exists y m d :
  date_exists {| year := y; month := m; day := d |} = false ->
  exists msg, Datetime.new y m d = Raise (ValueError msg).
Proof.
  intros H. destruct (Datetime.new y m d) as [dt|e] eqn:Hn.
  - apply new_Return in Hn as [Hn _]. congruence.
  - apply new_date_error in Hn as [msg ->]. exists msg. reflexivity.
Qed.

Lemma shift_weekend c :
  date_exists c = true ->
  (if Datetime.weekday c =? 5 then Datetime.add_days c 2
   else if Datetime.weekday c =? 6 then Datetime.add_days c 1
   else Return c)
  = Return (congratulation c).
Proof.
  intros H. destruct (add_days_weekend c H) as [H5 H6]. unfold congratulation.
  destruct (Z.eqb_spec (Datetime.weekday c) 5) as [E5|E5]; [exact (H5 E5)|].
  destruct (Z.eqb_spec (Datetime.weekday c) 6) as [E6|E6]; [exact (H6 E6)|].
  reflexivity.
Qed.

Lemma upcoming_body_spec today result r :
  (buildable today r = true ->
   Book.upcoming_body today result r
   = Return (result ++ match upcoming_entry today r with
                       | Some e => [e]
                       | None => []
                       end))
  /\ (buildable today r = false ->
      exists e, Book.upcoming_body today result r = Raise e
                /\ construction_error e).
Proof.
  unfold Book.upcoming_body, buildable, upcoming_entry, in_window.
  destruct (birthday r) as [b|].
  2:{ split; [intros _; rewrite app_nil_r; reflexivity|intros [=]]. }
  unfold candidate_exists, candidate, Datetime.replace_year.
  change {| year := year today; month := month (value b); day := day (value b) |}
    with (same_day_in (year today) (value b)).
  destruct (date_exists (same_day_in (year today) (value b))) eqn:E1.
  - rewrite (new_exists _ _ _ E1). cbn [obind andb].
    fold (same_day_in (year today) (value b)).
    destruct (Datetime.lt (same_day_in (year today) (value b)) today).
    + cbn [same_day_in month day].
      fold (same_day_in (year today + 1) (value b)).
      destruct (date_exists (same_day_in (year today + 1) (value b))) eqn:E2.
      * rewrite (new_exists _ _ _ E2). cbn [obind].
        fold (same_day_in (year today + 1) (value b)).
        split; [intros _|discriminate].
        destruct ((0 <=? _) && (_ <=? 7)).
        -- rewrite shift_weekend by exact E2. reflexivity.
        -- rewrite app_nil_r. reflexivity.
      * split; [discriminate|intros _].
        destruct (new_not_exists _ _ _ E2) as [msg Hmsg].
        exists (ValueError msg). unfold same_day_in in Hmsg. rewrite Hmsg.
        split; [reflexivity|]. split; eauto.
    + rewrite E1. cbn [obind]. split; [intros _|discriminate].
      destruct ((0 <=? _) && (_ <=? 7)).
      * rewrite shift_weekend by exact E1. reflexivity.
      * rewrite app_nil_r. reflexivity.
  - split; [discriminate|intros _]. cbn [andb].
    destruct (new_not_exists _ _ _ E1) as [msg Hmsg].
    exists (ValueError msg). unfold same_day_in in Hmsg. rewrite Hmsg.
    split; [reflexivity|]. split; eauto.
Qed.

Lemma upcoming_loop_spec today rs : forall result,
  (forallb (buildable today) rs = true ->
   Book.upcoming_loop today result rs
   = Return (result ++ omap (upcoming_entry today) rs))
  /\ (forallb (buildable today) rs = false ->
      exists e, Book.upcoming_loop today result rs = Raise e
                /\ construction_error e).
Proof.
  induction rs as [|r rs IH]; intros result; cbn [forallb Book.upcoming_loop].
  - split; [intros _; cbn; rewrite app_nil_r; reflexivity|discriminate].
  - destruct (upcoming_body_spec today result r) as [Hok Hbad].
    destruct (buildable today r) eqn:Hb; cbn [andb].
    + rewrite (Hok eq_refl). cbn [obind].
      destruct (IH (result ++ match upcoming_entry today r with
                              | Some e => [e]
                              | None => []
                              end)) as [IH1 IH2].
      split.
      * intros H. rewrite (IH1 H). f_equal. rewrite <- app_assoc. f_equal.
        cbn [omap list_omap]. destruct (upcoming_entry today r); reflexivity.
      * exact IH2.
    + split; [discriminate|intros _].
      destruct (Hbad eq_refl) as (e & He & Hc). exists e.
      rewrite He. split; [reflexivity|exact Hc].
Qed.

Lemma get_upcoming_eq today w :
  Book.get_upcoming_birthdays today w
  = (Book.upcoming_loop today [] (Book.values w), w).
Proof. reflexivity. Qed.

Lemma upcoming_names today rs :
  map entry_name (omap (upcoming_entry today) rs)
  = map (fun r => value (name r)) (List.filter (selected today) rs).
Proof.
  induction rs as [|r rs IH]; [reflexivity|].
  cbn [omap list_omap List.filter]. unfold upcoming_entry at 1, selected at 1.
  destruct (birthday r) as [b|]; [|exact IH].
  destruct (in_window today (value b)); [|exact IH].
  cbn. f_equal. exact IH.
Qed.

Lemma forallb_In_true {A} (f : A -> bool) l :
  (forall x, In x l -> f x = true) -> forallb f l = true.
Proof. intros H. apply forallb_forall. exact H. Qed.

Lemma forallb_In_false {A} (f : A -> bool) l x :
  In x l -> f x = false -> forallb f l = false.
Proof.
  intros Hin Hf. destruct (forallb f l) eqn:E; [|reflexivity].
  rewrite forallb_forall in E. rewrite (E x Hin) in Hf. discriminate.
Qed.

Lemma later_toordinal c n : Datetime.toordinal (later c n) = Datetime.toordinal c + n.
Proof. apply toordinal_fromordinal. Qed.

(** C1, as it is worded, fails on [leap_book] on 1 March 2023: Ann's
    birthday is the next day, but the method raises at Bob's 29 February
    and returns nothing. *)
Lemma upcoming_selects_fails :
  Book.get_upcoming_birthdays {| year := 2023; month := 3; day := 1 |} leap_book
  = (Raise (ValueError (lit "day is out of range for month")), leap_book)
  /\ List.filter (selected {| year := 2023; month := 3; day := 1 |})
       (Book.values leap_book) <> []
  /\ ~ upcoming_selects leap_book {| year := 2023; month := 3; day := 1 |}.
Proof.
  assert (H : Book.get_upcoming_birthdays
                {| year := 2023; month := 3; day := 1 |} leap_book
              = (Raise (ValueError (lit "day is out of range for month")),
                 leap_book)) by (vm_compute; reflexivity).
  split; [exact H|]. split.
  - vm_compute. discriminate.
  - intros (res & Hres & _). rewrite H in Hres. discriminate.
Qed.

Lemma same_day_exists b y :
  date_exists b = true -> 1 <= y <= 9999 ->
  (month b = 2 -> day b = 29 -> Datetime.is_leap y = true) ->
  date_exists (same_day_in y b) = true.
Proof.
  intros Hb Hy Hleap. apply date_exists_iff in Hb as (_ & Hm & Hd).
  apply date_exists_iff. cbn [same_day_in year month day].
  split; [exact Hy|]. split; [exact Hm|].
  destruct b as [yb m d]. cbn [year month day] in *.
  unfold Datetime.days_in_month in *.
  destruct (Z.eqb_spec m 2) as [->|Hne]; cbn [andb] in *.
  - calc_index. destruct (Datetime.is_leap y) eqn:Hl.
    + destruct (Datetime.is_leap yb); lia.
    + destruct (Z.eq_dec d 29) as [->|Hd29].
      * specialize (Hleap eq_refl eq_refl). discriminate.
      * destruct (Datetime.is_leap yb); lia.
  - exact Hd.
Qed.

(** C1, amended.  When, for every record of the book with a birthday, the
    day and month of the birthday exist as a date in today's year and the
    candidate date exists too, [get_upcoming_birthdays] returns, leaves the
    state as it is, and the names it returns are those of the records with a
    birthday whose candidate is zero to seven days after today, in the order
    of the book.  (For a birthday that is a date of the calendar, the dates
    asked for exist unless the birthday is a 29 February and the year is not
    a leap year, or the year is beyond 9999: [same_day_exists].) *)
Theorem upcoming_birthdays_window (w : world) (today : date) :
  (forall r b, In r (Book.values w) -> birthday r = Some b ->
     date_exists (same_day_in (year today) (value b)) = true
     /\ date_exists (candidate today (value b)) = true) ->
  upcoming_selects w today.
Proof.
  intros H. exists (omap (upcoming_entry today) (Book.values w)).
  rewrite get_upcoming_eq.
  destruct (upcoming_loop_spec today (Book.values w) []) as [Hok _].
  rewrite Hok.
  - split; [reflexivity|]. apply upcoming_names.
  - apply forallb_In_true. intros r Hr. unfold buildable, candidate_exists.
    destruct (birthday r) as [b|] eqn:Hb; [|reflexivity].
    destruct (H r b Hr Hb) as [-> ->]. reflexivity.
Qed.

Lemma upcoming_birthdays_window_witness :
  exists res,
    Book.get_upcoming_birthdays {| year := 2024; month := 2; day := 27 |}
      leap_book = (Return res, leap_book)
    /\ map entry_name res = [lit "Ann"; lit "Bob"].
Proof.
  destruct (upcoming_birthdays_window leap_book
              {| year := 2024; month := 2; day := 27 |}) as (res & H1 & H2).
  - intros r b Hr Hb. vm_compute in Hr.
    destruct Hr as [<-|[<-|[]]]; injection Hb as <-; vm_compute; split;
      reflexivity.
  - exists res. split; [exact H1|]. rewrite H2. vm_compute. reflexivity.
Defined.

(** C7.  When a record of the book has its birthday on 29 February and
    today's year is not a leap year, or the year of the candidate is not a
    leap year, [get_upcoming_birthdays] raises a ValueError of the date
    constructor: no list is returned, the record is neither skipped nor moved
    to another day. *)
Theorem feb29_raises (w : world) (today : date) (r : record) (b : Birthday) :
  In r (Book.values w) -> birthday r = Some b ->
  month (value b) = 2 -> day (value b) = 29 ->
  Datetime.is_leap (year today) = false
  \/ Datetime.is_leap (year (candidate today (value b))) = false ->
  exists e,
    Book.get_upcoming_birthdays today w = (Raise e, w)
    /\ (exists msg, e = ValueError msg)
    /\ (exists y m d, Datetime.new y m d = Raise e).
Proof.
  intros Hr Hb Hm Hd Hleap.
  assert (Hbad : buildable today r = false).
  { unfold buildable, candidate_exists. rewrite Hb.
    apply andb_false_iff. destruct Hleap as [Hl|Hl]; [left|right].
    - unfold date_exists, same_day_in, Datetime.days_in_month.
      cbn [year month day]. rewrite Hm, Hd, Hl. cbn.
      rewrite !andb_false_r. reflexivity.
    - assert (Hcm : month (candidate today (value b)) = 2
                    /\ day (candidate today (value b)) = 29).
      { unfold candidate. destruct (Datetime.lt _ _); cbn; tauto. }
      destruct Hcm as [Hcm Hcd].
      unfold date_exists, Datetime.days_in_month. rewrite Hcm, Hcd, Hl. cbn.
      rewrite !andb_false_r. reflexivity. }
  rewrite get_upcoming_eq.
  destruct (upcoming_loop_spec today (Book.values w) []) as [_ Hraise].
  destruct Hraise as (e & He & Hmsg & Hnew).
  { eapply forallb_In_false; eassumption. }
  exists e. rewrite He. split; [reflexivity|]. split; assumption.
Qed.

Lemma feb29_raises_witness :
  exists e,
    Book.get_upcoming_birthdays {| year := 2024; month := 3; day := 1 |}
      leap_book = (Raise e, leap_book)
    /\ (exists msg, e = ValueError msg).
Proof.
  destruct (feb29_raises leap_book {| year := 2024; month := 3; day := 1 |}
              {| name := {| value := lit "Bob" |};
                 phones := [ {| value := lit "0987654321" |} ];
                 birthday :=
                   Some {| value := {| year := 2000; month := 2; day := 29 |} |} |}
              {| value := {| year := 2000; month := 2; day := 29 |} |})
    as (e & H1 & H2 & _).
  - vm_compute. right. left. reflexivity.
  - reflexivity.
  - reflexivity.
  - reflexivity.
  - right. vm_compute. reflexivity.
  - exists e. split; [exact H1|exact H2].
Defined.

(** C2.  Whenever [get_upcoming_birthdays] returns, its list is made, in the
    order of the book, of one entry for each record whose candidate is in
    the window, with the record's name and the formatted congratulation
    date: the candidate plus two days when the candidate is a Saturday, plus
    one day when it is a Sunday (a Monday in both cases), and the candidate
    itself on the other days.  Only the weekday of the candidate decides, so
    the date can be more than seven days away: on 8 June 2024 a birthday on
    15 June is congratulated on 17 June, nine days later.  On 10 June 2024
    the birthday 15.06.1990 is listed with the date 17.06.2024. *)
Theorem congratulation_shift :
  (forall w today res w',
     Book.get_upcoming_birthdays today w = (Return res, w') ->
     res = omap (upcoming_entry today) (Book.values w)
     /\ forall r b, In r (Book.values w) -> birthday r = Some b ->
          in_window today (value b) = true ->
          let c := candidate today (value b) in
          date_exists c = true
          /\ In {| entry_name := value (name r);
                   congratulation_date := Datetime.strftime (congratulation c) |}
               res
          /\ (Datetime.weekday c = 5 ->
              Datetime.toordinal (congratulation c) = Datetime.toordinal c + 2
              /\ Datetime.weekday (congratulation c) = 0)
          /\ (Datetime.weekday c = 6 ->
              Datetime.toordinal (congratulation c) = Datetime.toordinal c + 1
              /\ Datetime.weekday (congratulation c) = 0)
          /\ (Datetime.weekday c <> 5 -> Datetime.weekday c <> 6 ->
              congratulation c = c))
  /\ Book.get_upcoming_birthdays {| year := 2024; month := 6; day := 10 |}
       jane_book
     = (Return [ {| entry_name := lit "Jane";
                    congratulation_date := lit "17.06.2024" |} ], jane_book)
  /\ (Book.get_upcoming_birthdays {| year := 2024; month := 6; day := 8 |}
        jane_book
      = (Return [ {| entry_name := lit "Jane";
                     congratulation_date := lit "17.06.2024" |} ], jane_book)
      /\ Datetime.days_between {| year := 2024; month := 6; day := 17 |}
           {| year := 2024; month := 6; day := 8 |} = 9).
Proof.
  split; [|split; [|split]]; [|vm_compute; reflexivity..].
  intros w today res w' H. rewrite get_upcoming_eq in H.
  destruct (upcoming_loop_spec today (Book.values w) []) as [Hok Hbad].
  destruct (forallb (buildable today) (Book.values w)) eqn:Hall.
  2:{ destruct (Hbad eq_refl) as (e & He & _). rewrite He in H. discriminate. }
  rewrite (Hok eq_refl) in H. injection H as <- _. cbn [app].
  split; [reflexivity|]. intros r b Hr Hb Hwin.
  cbv zeta. set (c := candidate today (value b)).
  assert (Hc : date_exists c = true).
  { rewrite forallb_forall in Hall. specialize (Hall r Hr).
    unfold buildable, candidate_exists in Hall. rewrite Hb in Hall.
    apply andb_true_iff in Hall. tauto. }
  split; [exact Hc|]. split.
  { apply list_elem_of_In. apply list_elem_of_omap. exists r.
    split; [apply list_elem_of_In, Hr|].
    unfold upcoming_entry. rewrite Hb, Hwin. reflexivity. }
  unfold congratulation. split; [|split].
  - intros H5. rewrite H5. cbn [Z.eqb Pos.eqb]. split.
    + apply later_toordinal.
    + unfold Datetime.weekday in *. rewrite later_toordinal. divmod.
  - intros H6. rewrite H6. cbn [Z.eqb Pos.eqb]. split.
    + apply later_toordinal.
    + unfold Datetime.weekday in *. rewrite later_toordinal. divmod.
  - intros H5 H6. destruct (Z.eqb_spec (Datetime.weekday c) 5); [lia|].
    destruct (Z.eqb_spec (Datetime.weekday c) 6); [lia|]. reflexivity.
Qed.

Lemma congratulation_shift_witness :
  In {| entry_name := lit "Jane"; congratulation_date := lit "17.06.2024" |}
    (omap (upcoming_entry {| year := 2024; month := 6; day := 10 |})
       (Book.values jane_book)).
Proof.
  destruct (proj1 congratulation_shift jane_book
              {| year := 2024; month := 6; day := 10 |}
              [ {| entry_name := lit "Jane";
                   congratulation_date := lit "17.06.2024" |} ]
              jane_book) as [H _].
  - vm_compute. reflexivity.
  - rewrite <- H. left. reflexivity.
Defined.

(** ** Properties: birthdays as text *)

Lemma re_Y_digits y1 y2 y3 y4 caps {A} (k : captures -> str -> option A) :
  Unicode.isdecimal y1 = true -> Unicode.isdecimal y2 = true ->
  Unicode.isdecimal y3 = true -> Unicode.isdecimal y4 = true ->
  re_run Datetime.re_Y [y1; y2; y3; y4] caps k
  = k (("Y"%string, [y1; y2; y3; y4]) :: caps) [].
Proof.
  intros H1 H2 H3 H4. unfold Datetime.re_Y, digit.
  cbn [re_run]. rewrite H1, H2, H3, H4. reflexivity.
Qed.

Lemma day_cases d : 1 <= d <= 31 ->
  d = 1 \/ d = 2 \/ d = 3 \/ d = 4 \/ d = 5 \/ d = 6 \/ d = 7 \/ d = 8
  \/ d = 9 \/ d = 10 \/ d = 11 \/ d = 12 \/ d = 13 \/ d = 14 \/ d = 15
  \/ d = 16 \/ d = 17 \/ d = 18 \/ d = 19 \/ d = 20 \/ d = 21 \/ d = 22
  \/ d = 23 \/ d = 24 \/ d = 25 \/ d = 26 \/ d = 27 \/ d = 28 \/ d = 29
  \/ d = 30 \/ d = 31.
Proof. lia. Qed.

(** Runs the matcher on a text whose first characters are known. *)
Ltac re_step :=
  match goal with
  | |- context [re_run (Cat ?a ?b) ?s ?c ?k] =>
      change (re_run (Cat a b) s c k)
        with (re_run a s c (fun caps' s' => re_run b s' caps' k))
  | |- context [re_run (Or ?a ?b) ?s ?c ?k] =>
      change (re_run (Or a b) s c k)
        with (match re_run a s c k with
              | Some x => Some x
              | None => re_run b s c k
              end)
  | |- context [re_run (Group ?g ?a) ?s ?c ?k] =>
      change (re_run (Group g a) s c k)
        with (re_run a s c
                (fun caps' s' =>
                   k ((g, firstn (length s - length s')%nat s) :: caps') s'))
  | |- context [re_run (Class ?p) (?x :: ?s) ?c ?k] =>
      let b := eval vm_compute in (p x) in
      change (re_run (Class p) (x :: s) c k) with (if b then k c s else None)
  | |- context [firstn (length ?s - length ?t)%nat ?s] =>
      let v := eval cbv in (firstn (length s - length t)%nat s) in
      change (firstn (length s - length t)%nat s) with v
  end; cbv beta iota.

Lemma run_d dd R t1 t2 t3 t4 t5 t6 t7 caps {A} (k : captures -> str -> option A) :
  1 <= dd <= 31 ->
  re_run (Cat Datetime.re_d (Cat (one ".") R))
    (two_digits dd ++ 46%N :: [t1; t2; t3; t4; t5; t6; t7]) caps k
  = re_run R [t1; t2; t3; t4; t5; t6; t7]
      (("d"%string, two_digits dd) :: caps) k.
Proof.
  intros Hd. apply day_cases in Hd.
  repeat (destruct Hd as [Hd|Hd]); subst;
    match goal with
    | |- context [two_digits ?n] =>
        let v := eval vm_compute in (two_digits n) in
        change (two_digits n) with v
    end;
    cbn [app]; unfold Datetime.re_d, one, range; repeat re_step.
  all: repeat match goal with
              | |- context [match ?x with Some _ => _ | None => _ end] =>
                  let E := fresh "E" in
                  destruct x eqn:E; try (symmetry; exact E)
              end; try reflexivity.
Qed.

Lemma run_m mm R t1 t2 t3 t4 caps {A} (k : captures -> str -> option A) :
  1 <= mm <= 12 ->
  re_run (Cat Datetime.re_m (Cat (one ".") R))
    (two_digits mm ++ 46%N :: [t1; t2; t3; t4]) caps k
  = re_run R [t1; t2; t3; t4] (("m"%string, two_digits mm) :: caps) k.
Proof.
  intros Hm. apply month_cases in Hm.
  repeat (destruct Hm as [Hm|Hm]); subst;
    match goal with
    | |- context [two_digits ?n] =>
        let v := eval vm_compute in (two_digits n) in
        change (two_digits n) with v
    end;
    cbn [app]; unfold Datetime.re_m, one, range; repeat re_step.
  all: repeat match goal with
              | |- context [match ?x with Some _ => _ | None => _ end] =>
                  let E := fresh "E" in
                  destruct x eqn:E; try (symmetry; exact E)
              end; try reflexivity.
Qed.

Lemma digit_cases v : 0 <= v <= 9 ->
  v = 0 \/ v = 1 \/ v = 2 \/ v = 3 \/ v = 4 \/ v = 5 \/ v = 6 \/ v = 7
  \/ v = 8 \/ v = 9.
Proof. lia. Qed.

Lemma digit_char_facts v :
  0 <= v <= 9 ->
  Unicode.decimal (digit_char v) = Some (Z.to_N v)
  /\ Unicode.isdecimal (digit_char v) = true
  /\ Unicode.isspace (digit_char v) = false.
Proof.
  intros H. apply digit_cases in H.
  repeat (destruct H as [H|H]); subst; vm_compute; auto.
Qed.

Lemma lstrip_nonspace c s : Unicode.isspace c = false -> lstrip (c :: s) = c :: s.
Proof. intros H. cbn. rewrite H. reflexivity. Qed.

Lemma int_of_two a b :
  0 <= a <= 9 -> 0 <= b <= 9 ->
  int_of_str [digit_char a; digit_char b] = Some (a * 10 + b).
Proof.
  intros Ha Hb.
  destruct (digit_char_facts a Ha) as (Da & _ & Sa).
  destruct (digit_char_facts b Hb) as (Db & _ & Sb).
  unfold int_of_str, strip. rewrite lstrip_nonspace by exact Sa.
  cbn [rev app]. rewrite lstrip_nonspace by exact Sb. cbn [rev app].
  cbn [int_digits]. rewrite Da, Db. rewrite !Z2N.id by lia. f_equal; lia.
Qed.

Lemma int_of_four a b c d :
  0 <= a <= 9 -> 0 <= b <= 9 -> 0 <= c <= 9 -> 0 <= d <= 9 ->
  int_of_str [digit_char a; digit_char b; digit_char c; digit_char d]
  = Some (a * 1000 + b * 100 + c * 10 + d).
Proof.
  intros Ha Hb Hc Hd.
  destruct (digit_char_facts a Ha) as (Da & _ & Sa).
  destruct (digit_char_facts b Hb) as (Db & _ & _).
  destruct (digit_char_facts c Hc) as (Dc & _ & _).
  destruct (digit_char_facts d Hd) as (Dd & _ & Sd).
  unfold int_of_str, strip. rewrite lstrip_nonspace by exact Sa.
  cbn [rev app]. rewrite lstrip_nonspace by exact Sd. cbn [rev app].
  cbn [int_digits]. rewrite Da, Db, Dc, Dd. rewrite !Z2N.id by lia.
  f_equal; lia.
Qed.

(** The text DD.MM.YYYY of a date is read back as that date. *)
Lemma strptime_DDMMYYYY d :
  date_exists d = true -> Datetime.strptime (DDMMYYYY d) = Return d.
Proof.
  intros H. pose proof H as He. apply date_exists_iff in H as (Hy & Hm & Hd).
  assert (Hd31 : 1 <= day d <= 31).
  { destruct d as [y m dd]. cbn [year month day] in *.
    unfold Datetime.days_in_month in Hd.
    destruct ((m =? 2) && Datetime.is_leap y); [lia|].
    pose proof Hm as Hm'. by_month Hm'; lia. }
  unfold Datetime.strptime, re_match, Datetime.format_regex, DDMMYYYY.
  change (lit ".") with [46%N]. unfold four_digits.
  unfold two_digits at 2. cbn [app].
  rewrite run_d by exact Hd31.
  change [digit_char (month d / 10); digit_char (month d mod 10); 46%N;
          digit_char (year d / 1000); digit_char (year d / 100 mod 10);
          digit_char (year d / 10 mod 10); digit_char (year d mod 10)]
    with (two_digits (month d) ++ 46%N ::
          [digit_char (year d / 1000); digit_char (year d / 100 mod 10);
           digit_char (year d / 10 mod 10); digit_char (year d mod 10)]).
  rewrite run_m by exact Hm.
  assert (H1 : 0 <= year d / 1000 <= 9) by divmod.
  assert (H2 : 0 <= year d / 100 mod 10 <= 9) by divmod.
  assert (H3 : 0 <= year d / 10 mod 10 <= 9) by divmod.
  assert (H4 : 0 <= year d mod 10 <= 9) by divmod.
  rewrite re_Y_digits by (apply digit_char_facts; assumption).
  cbn [group String.eqb Ascii.eqb Bool.eqb].
  rewrite int_of_four by assumption.
  unfold two_digits.
  rewrite !int_of_two by divmod.
  replace (year d / 1000 * 1000 + year d / 100 mod 10 * 100
           + year d / 10 mod 10 * 10 + year d mod 10) with (year d) by divmod.
  replace (month d / 10 * 10 + month d mod 10) with (month d) by divmod.
  replace (day d / 10 * 10 + day d mod 10) with (day d) by divmod.
  destruct d as [y m dd]. apply new_exists. exact He.
Qed.

(** C3.  [Birthday.__init__] (validate_birthday) accepts the text DD.MM.YYYY
    of every date of the calendar (years 1 to 9999) and keeps that date, and
    it refuses "31.02.2020" and "00.01.2020" with the ValueError "Invalid date
    format. Use DD.MM.YYYY".  It does not refuse "1.1.2020": [strptime] reads
    a day and a month of one digit, and the constructor returns
    1 January 2020. *)
Theorem Birthday_init_padding :
  (forall d, date_exists d = true ->
     Birthday_init (DDMMYYYY d) = Return {| value := d |})
  /\ Birthday_init (lit "31.02.2020")
     = Raise (ValueError (lit "Invalid date format. Use DD.MM.YYYY"))
  /\ Birthday_init (lit "00.01.2020")
     = Raise (ValueError (lit "Invalid date format. Use DD.MM.YYYY"))
  /\ Birthday_init (lit "1.1.2020")
     = Return {| value := {| year := 2020; month := 1; day := 1 |} |}.
Proof.
  split; [|split; [|split]]; [|vm_compute; reflexivity..].
  intros d H. unfold Birthday_init. rewrite strptime_DDMMYYYY by exact H.
  reflexivity.
Qed.

Lemma Birthday_init_padding_witness :
  Birthday_init (lit "15.06.1990")
  = Return {| value := {| year := 1990; month := 6; day := 15 |} |}.
Proof.
  apply (proj1 Birthday_init_padding {| year := 1990; month := 6; day := 15 |}).
  vm_compute. reflexivity.
Defined.

(** ** Properties: the command loop *)

Lemma split_blank line :
  Forall (fun c => Unicode.isspace c = true) line -> split line = [].
Proof.
  unfold split. induction 1 as [|c line Hc _ IH]; [reflexivity|].
  cbn [split_from]. rewrite Hc. exact IH.
Qed.

(** C10.  On a line that is empty or made of blanks only, [parse_input]
    does not raise: the decorator turns the failure of the unpacking into
    the text "Error: not enough values to unpack (expected at least 1, got
    0)", returned in place of the tuple.  The loop unpacks that text into
    its first character "E" as the command and the other characters as
    arguments, no case of the match applies, and the turn prints "Invalid
    command.", leaves the state as it is and goes on. *)
Theorem blank_line_invalid_command
    (lower : str -> str) (today : date) (line : str) (w : world) :
  Forall (fun c => Unicode.isspace c = true) line ->
  parse_input lower line w
  = (Return (Str (lit "Error: not enough values to unpack (expected at least 1, got 0)")),
     w)
  /\ (exists args,
        unpack_first
          (Str (lit "Error: not enough values to unpack (expected at least 1, got 0)"))
        = Return (lit "E", args))
  /\ main_turn lower today line w
     = (Return ([Printed (Str (lit "Invalid command."))], true), w).
Proof.
  intros H. apply split_blank in H.
  assert (Hp : forall S (s : S),
             parse_input lower line s
             = (Return (Str (lit "Error: not enough values to unpack (expected at least 1, got 0)")),
                s)).
  { intros S s. unfold parse_input, input_error, bind, lift. rewrite H.
    reflexivity. }
  split; [apply Hp|].
  destruct (unpack_first
              (Str (lit "Error: not enough values to unpack (expected at least 1, got 0)")))
    as [[command args]|e] eqn:Hu; vm_compute in Hu; [|discriminate].
  injection Hu as <- <-.
  split; [eexists; reflexivity|].
  unfold main_turn, bind. rewrite Hp.
  match goal with
  | |- context [unpack_first ?v] =>
      let r := eval vm_compute in (unpack_first v) in
      change (unpack_first v) with r
  end.
  unfold lift. cbn [fst snd].
  repeat match goal with
         | |- context [bool_decide (?a = ?b)] =>
             let v := eval vm_compute in (bool_decide (a = b)) in
             change (bool_decide (a = b)) with v
         end.
  reflexivity.
Qed.

Lemma blank_line_invalid_command_witness :
  main_turn (fun s => s) {| year := 2024; month := 6; day := 10 |} (lit "   ")
    empty_world
  = (Return ([Printed (Str (lit "Invalid command."))], true), empty_world).
Proof.
  apply (blank_line_invalid_command (fun s => s)
           {| year := 2024; month := 6; day := 10 |} (lit "   ") empty_world).
  repeat constructor.
Defined.

(** ** More properties: Record *)

(** Where [find_phone] stops: the list up to the phone found, the phone,
    and the rest. *)
Lemma find_phone_in_split ps phone i :
  Rec.find_phone_in ps phone = Some i ->
  exists pre q post,
    ps = pre ++ q :: post /\ length pre = i /\ value q = phone
    /\ Forall (fun p => value p <> phone) pre
    /\ delete i ps = pre ++ post
    /\ forall x, <[i := x]> ps = pre ++ x :: post.
Proof.
  revert i. induction ps as [|p ps IH]; cbn; [discriminate|].
  intros i. destruct (decide (value p = phone)) as [Heq|Hne].
  - intros [= <-]. exists [], p, ps. cbn. repeat split; auto.
  - destruct (Rec.find_phone_in ps phone) as [j|] eqn:Hf; cbn; [|discriminate].
    intros [= <-].
    destruct (IH j eq_refl) as (pre & q & post & -> & Hlen & Hq & Hpre & Hdel & Hins).
    exists (p :: pre), q, post. cbn. repeat split.
    + f_equal. exact Hlen.
    + exact Hq.
    + constructor; assumption.
    + f_equal. exact Hdel.
    + intros x. f_equal. apply Hins.
Qed.

(** X1.  [find_phone] gives the first phone of the record whose value is the
    one asked for, and [None] exactly when no phone has that value; it does
    not change the record. *)
Theorem find_phone_first (self : record) (phone : str) :
  snd (Rec.find_phone phone self) = self
  /\ match fst (Rec.find_phone phone self) with
     | Return (Some i) =>
         exists pre q post,
           phones self = pre ++ q :: post /\ length pre = i
           /\ value q = phone
           /\ (forall p, In p pre -> value p <> phone)
     | Return None => forall p, In p (phones self) -> value p <> phone
     | Raise _ => False
     end.
Proof.
  split; [reflexivity|].
  change (fst (Rec.find_phone phone self))
    with (Return (Rec.find_phone_in (phones self) phone)).
  cbv beta iota.
  destruct (Rec.find_phone_in (phones self) phone) as [i|] eqn:Hf.
  - destruct (find_phone_in_split _ _ _ Hf)
      as (pre & q & post & H1 & H2 & H3 & H4 & _).
    exists pre, q, post. repeat split; try assumption.
    intros p Hp. rewrite Forall_forall in H4. apply H4, list_elem_of_In, Hp.
  - apply find_phone_in_None in Hf. intros p Hp.
    rewrite Forall_forall in Hf. apply Hf, list_elem_of_In, Hp.
Qed.

Lemma find_phone_first_witness :
  snd (Rec.find_phone (lit "1234567890")
         {| name := {| value := lit "Jane" |};
            phones := [ {| value := lit "0987654321" |};
                        {| value := lit "1234567890" |} ];
            birthday := None |})
  = {| name := {| value := lit "Jane" |};
       phones := [ {| value := lit "0987654321" |};
                   {| value := lit "1234567890" |} ];
       birthday := None |}.
Proof.
  exact (proj1 (find_phone_first
                  {| name := {| value := lit "Jane" |};
                     phones := [ {| value := lit "0987654321" |};
                                 {| value := lit "1234567890" |} ];
                     birthday := None |} (lit "1234567890"))).
Defined.

Lemma find_phone_in_app_last ps phone :
  exists i, Rec.find_phone_in (ps ++ [ {| value := phone |} ]) phone = Some i
            /\ (i <= length ps)%nat.
Proof.
  induction ps as [|p ps IH]; cbn.
  - destruct (decide (phone = phone)); [|congruence]. exists O. split; [reflexivity|lia].
  - destruct (decide (value p = phone)).
    + exists O. split; [reflexivity|lia].
    + destruct IH as (i & -> & Hi). exists (S i). split; [reflexivity|lia].
Qed.

(** X2.  [add_phone] with a valid phone appends it after the phones the
    record has, also when the same number is already there, and leaves the
    name and the birthday alone; [find_phone] then finds that number.  With
    any other text it raises the ValueError "The phone should contain 10
    digits" and the record is unchanged. *)
Theorem add_phone_appends (self : record) (phone : str) :
  (valid_phone phone ->
   exists self',
     Rec.add_phone phone self = (Return tt, self')
     /\ phones self' = phones self ++ [ {| value := phone |} ]
     /\ name self' = name self /\ birthday self' = birthday self
     /\ exists i, fst (Rec.find_phone phone self') = Return (Some i))
  /\ (~ valid_phone phone ->
      Rec.add_phone phone self
      = (Raise (ValueError (lit "The phone should contain 10 digits")), self)).
Proof.
  split.
  - intros Hv.
    exists (set_phones (phones self ++ [ {| value := phone |} ]) self).
    split; [apply add_phone_valid, Hv|].
    split; [reflexivity|]. split; [reflexivity|]. split; [reflexivity|].
    destruct (find_phone_in_app_last (phones self) phone) as (i & Hi & _).
    exists i. unfold Rec.find_phone, bind, get, ret.
    cbn [fst phones set_phones]. f_equal. exact Hi.
  - intros Hn. unfold Rec.add_phone, bind, lift.
    rewrite (Phone_init_invalid _ Hn). reflexivity.
Qed.

Lemma add_phone_appends_witness :
  exists self',
    Rec.add_phone (lit "1234567890")
      {| name := {| value := lit "Jane" |};
         phones := [ {| value := lit "1234567890" |} ]; birthday := None |}
    = (Return tt, self')
    /\ phones self' = [ {| value := lit "1234567890" |};
                        {| value := lit "1234567890" |} ].
Proof.
  destruct (proj1 (add_phone_appends
                     {| name := {| value := lit "Jane" |};
                        phones := [ {| value := lit "1234567890" |} ];
                        birthday := None |} (lit "1234567890")))
    as (self' & H1 & H2 & _).
  - split; [reflexivity|]. apply all_decimal_forallb. reflexivity.
  - exists self'. split; [exact H1|exact H2].
Defined.

(** X3.  [remove_phone] of a number the record has removes the first phone
    with that number and nothing else: the phones before it and after it
    stay, in their order. *)
Theorem remove_phone_first (self : record) (phone : str) :
  (exists q, In q (phones self) /\ value q = phone) ->
  exists pre q post,
    phones self = pre ++ q :: post /\ value q = phone
    /\ (forall p, In p pre -> value p <> phone)
    /\ Rec.remove_phone phone self = (Return tt, set_phones (pre ++ post) self).
Proof.
  intros (q0 & Hin & Hq0).
  destruct (Rec.find_phone_in (phones self) phone) as [i|] eqn:Hf.
  2:{ apply find_phone_in_None in Hf. rewrite Forall_forall in Hf.
      exfalso. apply (Hf q0); [apply list_elem_of_In, Hin|exact Hq0]. }
  destruct (find_phone_in_split _ _ _ Hf)
    as (pre & q & post & H1 & _ & H3 & H4 & Hdel & _).
  exists pre, q, post. repeat split; try assumption.
  - intros p Hp. rewrite Forall_forall in H4. apply H4, list_elem_of_In, Hp.
  - unfold Rec.remove_phone, Rec.find_phone, bind, get, put, ret. cbn.
    rewrite Hf. cbn. rewrite Hdel. reflexivity.
Qed.

Lemma remove_phone_first_witness :
  exists pre q post,
    [ {| value := lit "0987654321" |}; {| value := lit "1234567890" |};
      {| value := lit "1234567890" |} ] = pre ++ q :: post
    /\ fst (Rec.remove_phone (lit "1234567890")
              {| name := {| value := lit "Jane" |};
                 phones := [ {| value := lit "0987654321" |};
                             {| value := lit "1234567890" |};
                             {| value := lit "1234567890" |} ];
                 birthday := None |}) = Return tt.
Proof.
  destruct (remove_phone_first
              {| name := {| value := lit "Jane" |};
                 phones := [ {| value := lit "0987654321" |};
                             {| value := lit "1234567890" |};
                             {| value := lit "1234567890" |} ];
                 birthday := None |} (lit "1234567890"))
    as (pre & q & post & H1 & _ & _ & H).
  - exists {| value := lit "1234567890" |}. split; [|reflexivity].
    right. left. reflexivity.
  - exists pre, q, post. split; [exact H1|]. rewrite H. reflexivity.
Defined.

(** [edit_phone] on a record that has the old number. *)
Lemma edit_phone_present (self : record) (old_phone new_phone : str) :
  (exists q, In q (phones self) /\ value q = old_phone) ->
  (valid_phone new_phone ->
   exists pre q post,
     phones self = pre ++ q :: post /\ value q = old_phone
     /\ (forall p, In p pre -> value p <> old_phone)
     /\ Rec.edit_phone old_phone new_phone self
        = (Return tt,
           set_phones (pre ++ {| value := new_phone |} :: post) self))
  /\ (~ valid_phone new_phone ->
      Rec.edit_phone old_phone new_phone self
      = (Raise (ValueError (lit "The phone should contain 10 digits")), self)).
Proof.
  intros (q0 & Hin & Hq0).
  destruct (Rec.find_phone_in (phones self) old_phone) as [i|] eqn:Hf.
  2:{ apply find_phone_in_None in Hf. rewrite Forall_forall in Hf.
      exfalso. apply (Hf q0); [apply list_elem_of_In, Hin|exact Hq0]. }
  destruct (find_phone_in_split _ _ _ Hf)
    as (pre & q & post & H1 & _ & H3 & H4 & _ & Hins).
  split.
  - intros Hv. exists pre, q, post. repeat split; try assumption.
    + intros p Hp. rewrite Forall_forall in H4. apply H4, list_elem_of_In, Hp.
    + unfold Rec.edit_phone, Rec.find_phone, bind, get, put, ret, lift. cbn.
      rewrite Hf, (Phone_init_valid _ Hv). cbn. rewrite Hins. reflexivity.
  - intros Hn.
    unfold Rec.edit_phone, Rec.find_phone, bind, get, put, ret, lift. cbn.
    rewrite Hf, (Phone_init_invalid _ Hn). reflexivity.
Qed.

(** X4.  [edit_phone] of a number the record has: with a valid new number,
    the first phone with the old number takes the new one, in its place, and
    the other phones stay; with an invalid new number it raises the ValueError
    "The phone should contain 10 digits" and the record is unchanged. *)
Theorem edit_phone_in_place (self : record) (old_phone new_phone : str) :
  (exists q, In q (phones self) /\ value q = old_phone) ->
  (valid_phone new_phone ->
   exists pre q post,
     phones self = pre ++ q :: post /\ value q = old_phone
     /\ (forall p, In p pre -> value p <> old_phone)
     /\ Rec.edit_phone old_phone new_phone self
        = (Return tt,
           set_phones (pre ++ {| value := new_phone |} :: post) self))
  /\ (~ valid_phone new_phone ->
      Rec.edit_phone old_phone new_phone self
      = (Raise (ValueError (lit "The phone should contain 10 digits")), self)).
Proof. apply edit_phone_present. Qed.

Lemma edit_phone_in_place_witness :
  Rec.edit_phone (lit "1234567890") (lit "12x")
    {| name := {| value := lit "Jane" |};
       phones := [ {| value := lit "1234567890" |} ]; birthday := None |}
  = (Raise (ValueError (lit "The phone should contain 10 digits")),
     {| name := {| value := lit "Jane" |};
        phones := [ {| value := lit "1234567890" |} ]; birthday := None |}).
Proof.
  apply (proj2 (edit_phone_in_place
                  {| name := {| value := lit "Jane" |};
                     phones := [ {| value := lit "1234567890" |} ];
                     birthday := None |} (lit "1234567890") (lit "12x")
                  (ex_intro _ {| value := lit "1234567890" |}
                     (conj (or_introl eq_refl) eq_refl)))).
  intros [Hlen _]. vm_compute in Hlen. discriminate.
Defined.

(** ** More properties: birthdays *)

(** A match hands its continuation the groups of the expression. *)
Lemma re_run_groups r gs :
  sets_groups r gs ->
  forall A s caps (k : captures -> str -> option A) x,
    re_run r s caps k = Some x ->
    exists added s', map fst added = gs /\ k (added ++ caps) s' = Some x.
Proof.
  induction 1 as [p|r1 r2 g1 g2 _ IH1 _ IH2|r1 r2 g _ IH1 _ IH2|n r _ IH
                 |g r gs _ IH]; intros A s caps k x.
  - rewrite re_run_Class. destruct s as [|c s]; [discriminate|].
    destruct (p c); [|discriminate]. intros H. exists [], s. split; [reflexivity|exact H].
  - cbn [re_run]. intros H.
    apply IH1 in H as (a1 & s1 & Ha1 & H).
    apply IH2 in H as (a2 & s2 & Ha2 & H).
    exists (a2 ++ a1), s2. split.
    + rewrite map_app, Ha1, Ha2. reflexivity.
    + rewrite <- app_assoc. exact H.
  - cbn [re_run]. destruct (re_run r1 s caps k) as [y|] eqn:H1.
    + intros [= <-]. apply IH1 in H1. exact H1.
    + intros H2. apply IH2 in H2. exact H2.
  - revert s caps. induction n as [|n IHn]; intros s caps.
    + cbn. intros H. exists [], s. split; [reflexivity|exact H].
    + rewrite re_run_Times_S. intros H.
      apply IH in H as (a1 & s1 & Ha1 & H).
      destruct a1; [|discriminate]. cbn [app] in H.
      apply IHn in H. exact H.
  - cbn [re_run]. intros H.
    apply IH in H as (a1 & s1 & Ha1 & H).
    exists ((g, take (length s - length s1) s) :: a1), s1.
    split; [cbn; rewrite Ha1; reflexivity|exact H].
Qed.

Lemma format_regex_groups :
  sets_groups Datetime.format_regex ["Y"; "m"; "d"]%string.
Proof.
  assert (H : exists gs, sets_groups Datetime.format_regex gs
                         /\ gs = ["Y"; "m"; "d"]%string).
  { eexists. split.
    - unfold Datetime.format_regex, Datetime.re_d, Datetime.re_m,
        Datetime.re_Y, one, range, digit.
      repeat econstructor.
    - reflexivity. }
  destruct H as (gs & H & ->). exact H.
Qed.

(** [strptime] fails with a [ValueError] only. *)
Lemma strptime_ValueError s e :
  Datetime.strptime s = Raise e -> exists msg, e = ValueError msg.
Proof.
  unfold Datetime.strptime, re_match.
  destruct (re_run Datetime.format_regex s []
              (fun caps rest => Some (caps, rest))) as [[caps rest]|] eqn:Hm.
  2:{ intros [= <-]. eexists. reflexivity. }
  apply (re_run_groups _ _ format_regex_groups) in Hm
    as (added & s' & Hg & [= <- <-]).
  destruct added as [|[gY ty] [|[gm tm] [|[gd td] [|? ?]]]]; try discriminate.
  injection Hg as -> -> ->. rewrite app_nil_r.
  destruct s' as [|c rest]; [|intros [= <-]; eexists; reflexivity].
  cbn [group String.eqb Ascii.eqb Bool.eqb].
  destruct (int_of_str ty), (int_of_str tm), (int_of_str td);
    try (intros [= <-]; eexists; reflexivity).
  apply new_date_error.
Qed.

Lemma strptime_Return s d :
  Datetime.strptime s = Return d -> date_exists d = true.
Proof.
  unfold Datetime.strptime.
  destruct (re_match Datetime.format_regex s) as [[caps [|c rest]]|];
    try discriminate.
  destruct (group "Y" caps) as [ty|], (group "m" caps) as [tm|],
    (group "d" caps) as [td|]; try discriminate.
  destruct (int_of_str ty) as [y|], (int_of_str tm) as [m|],
    (int_of_str td) as [dd|]; try discriminate.
  intros H. apply new_Return in H as [H ->]. exact H.
Qed.

(** The constructor of [Birthday] gives a date of the calendar or the one
    error of the class. *)
Lemma Birthday_init_cases s :
  (exists d, Datetime.strptime s = Return d
             /\ Birthday_init s = Return {| value := d |}
             /\ date_exists d = true)
  \/ Birthday_init s
     = Raise (ValueError (lit "Invalid date format. Use DD.MM.YYYY")).
Proof.
  unfold Birthday_init. destruct (Datetime.strptime s) as [d|e] eqn:H.
  - left. exists d. split; [reflexivity|]. split; [reflexivity|].
    apply strptime_Return in H. exact H.
  - right. apply strptime_ValueError in H as [msg ->]. reflexivity.
Qed.

(** X5.  [add_birthday] of a record either stores a date of the calendar as
    the birthday, in place of any birthday the record had, with the name and
    the phones as they were, or raises the ValueError "Invalid date format.
    Use DD.MM.YYYY" and leaves the record unchanged; nothing else happens. *)
Theorem add_birthday_sets (self : record) (birthday_string : str) :
  (exists d,
     Rec.add_birthday birthday_string self
     = (Return tt,
        {| name := name self; phones := phones self;
           birthday := Some {| value := d |} |})
     /\ date_exists d = true
     /\ Datetime.strptime birthday_string = Return d)
  \/ Rec.add_birthday birthday_string self
     = (Raise (ValueError (lit "Invalid date format. Use DD.MM.YYYY")), self).
Proof.
  unfold Rec.add_birthday, bind, lift, get, put.
  destruct (Birthday_init_cases birthday_string) as [(d & Hs & -> & Hd)| ->].
  - left. exists d. split; [reflexivity|]. split; assumption.
  - right. reflexivity.
Qed.

(** *** Printing a date and reading it back *)

Lemma pad2_two_digits n : 1 <= n <= 31 -> pad2 n = two_digits n.
Proof.
  intros H. apply day_cases in H.
  repeat (destruct H as [H|H]); subst; vm_compute; reflexivity.
Qed.

Lemma year_text_check :
  forallb (fun y => bool_decide (decimal_of_Z y = four_digits y))
    (map (fun i => 1000 + Z.of_nat i) (seq 0 (Z.to_nat 9000))) = true.
Proof. vm_compute. reflexivity. Qed.

Lemma year_text y : 1000 <= y <= 9999 -> decimal_of_Z y = four_digits y.
Proof.
  intros H. pose proof year_text_check as Hc.
  rewrite forallb_forall in Hc.
  assert (Hin : In y (map (fun i => 1000 + Z.of_nat i)
                        (seq 0 (Z.to_nat 9000)))).
  { replace y with (1000 + Z.of_nat (Z.to_nat (y - 1000))) by lia.
    apply (in_map (fun i => 1000 + Z.of_nat i)), in_seq. lia. }
  apply Hc in Hin. apply bool_decide_eq_true in Hin. exact Hin.
Qed.

(** For the years of four digits [strftime] prints DD.MM.YYYY. *)
Lemma strftime_DDMMYYYY d :
  date_exists d = true -> 1000 <= year d -> Datetime.strftime d = DDMMYYYY d.
Proof.
  intros H Hy. apply date_exists_iff in H as (Hy' & Hm & Hd).
  assert (Hd31 : 1 <= day d <= 31).
  { destruct d as [y m dd]. cbn [year month day] in *.
    unfold Datetime.days_in_month in Hd.
    destruct ((m =? 2) && Datetime.is_leap y); [lia|].
    pose proof Hm as Hm'. by_month Hm'; lia. }
  unfold Datetime.strftime, DDMMYYYY.
  rewrite !pad2_two_digits by lia. rewrite year_text by lia. reflexivity.
Qed.

(** X6.  A birthday printed by the program is read back as the same
    birthday: for every date of the calendar from the year 1000 on,
    [strftime] gives its text DD.MM.YYYY and the constructor of [Birthday]
    accepts that text and gives the date again. *)
Theorem birthday_text_round_trip (d : date) :
  date_exists d = true -> 1000 <= year d ->
  Datetime.strftime d = DDMMYYYY d
  /\ Birthday_init (Datetime.strftime d) = Return {| value := d |}.
Proof.
  intros H Hy. rewrite (strftime_DDMMYYYY d H Hy). split; [reflexivity|].
  unfold Birthday_init. rewrite strptime_DDMMYYYY by exact H. reflexivity.
Qed.

Lemma birthday_text_round_trip_witness :
  Datetime.strftime {| year := 2024; month := 6; day := 12 |} = lit "12.06.2024"
  /\ Birthday_init (lit "12.06.2024")
     = Return {| value := {| year := 2024; month := 6; day := 12 |} |}.
Proof.
  destruct (birthday_text_round_trip {| year := 2024; month := 6; day := 12 |})
    as [H1 H2].
  - vm_compute. reflexivity.
  - vm_compute. discriminate.
  - split; [rewrite H1; vm_compute; reflexivity|].
    rewrite H1 in H2. exact H2.
Defined.

(** ** More properties: AddressBook *)

Lemma dict_del_keys {V} k (d : list (str * V)) :
  In k (map fst d) ->
  exists pre post,
    map fst d = pre ++ k :: post /\ ~ In k pre
    /\ map fst (dict_del k d) = pre ++ post.
Proof.
  induction d as [|[k' v'] d IH]; cbn; [tauto|].
  intros H. destruct (decide (k = k')) as [->|Hne].
  - exists [], (map fst d). cbn. tauto.
  - destruct IH as (pre & post & H1 & H2 & H3).
    { destruct H; [congruence|assumption]. }
    exists (k' :: pre), post. cbn. rewrite H1, H3.
    split; [reflexivity|]. split; [|reflexivity].
    intros [Heq|Hin]; [congruence|tauto].
Qed.

Lemma dict_get_del_ne {V} k k' (d : list (str * V)) :
  k <> k' -> dict_get k' (dict_del k d) = dict_get k' d.
Proof.
  intros Hne. induction d as [|[k'' v''] d IH]; cbn; [reflexivity|].
  destruct (decide (k = k'')) as [->|Hne']; cbn.
  - destruct (decide (k' = k'')); [congruence|reflexivity].
  - destruct (decide (k' = k'')); [reflexivity|exact IH].
Qed.

Lemma dict_get_del_eq {V} k (d : list (str * V)) :
  List.NoDup (map fst d) -> dict_get k (dict_del k d) = None.
Proof.
  intros Hnd. apply dict_get_None.
  induction d as [|[k' v'] d IH]; cbn; [tauto|].
  inversion Hnd as [|? ? Hni Hnd']; subst.
  destruct (decide (k = k')) as [->|Hne]; cbn; [exact Hni|].
  intros [Heq|Hin]; [congruence|]. exact (IH Hnd' Hin).
Qed.

(** X7.  In a reachable state, [delete] of a name the book has returns,
    takes that name out of the book and leaves every record object as it is:
    [find] of the name then gives [None], the other names are found as
    before, and they keep their order. *)
Theorem delete_present (w : world) (n : str) :
  reachable w -> In n (map fst (data w)) ->
  exists w',
    Book.delete n w = (Return tt, w')
    /\ heap w' = heap w
    /\ Book.find n w' = (Return None, w')
    /\ (forall n', n' <> n ->
          Book.find n' w' = (Return (dict_get n' (data w)), w'))
    /\ exists pre post,
         map fst (data w) = pre ++ n :: post
         /\ map fst (data w') = pre ++ post.
Proof.
  intros Hr Hin. apply reachable_refs_ok in Hr as [Hnd _].
  destruct (dict_get n (data w)) as [l|] eqn:Hd.
  2:{ apply dict_get_None in Hd. contradiction. }
  eexists. split; [rewrite delete_eq, Hd; reflexivity|].
  split; [reflexivity|]. split; [|split].
  - rewrite find_eq. cbn. rewrite dict_get_del_eq by exact Hnd. reflexivity.
  - intros n' Hne. rewrite find_eq. cbn.
    rewrite dict_get_del_ne by congruence. reflexivity.
  - destruct (dict_del_keys n (data w) Hin) as (pre & post & H1 & _ & H2).
    exists pre, post. split; [exact H1|exact H2].
Qed.

Lemma delete_present_witness :
  exists w',
    Book.delete (lit "Ann") leap_book = (Return tt, w')
    /\ map fst (data w') = [lit "Bob"].
Proof.
  destruct (delete_present leap_book (lit "Ann"))
    as (w' & H1 & _ & _ & _ & pre & post & H2 & H3).
  - exact (reach_step (DoAddBirthdayCmd [lit "Bob"; lit "29.02.2000"]) _
             (reach_step (DoAddContact [lit "Bob"; lit "0987654321"]) _
                (reach_step (DoAddBirthdayCmd [lit "Ann"; lit "02.03.1990"]) _
                   (reach_step (DoAddContact [lit "Ann"; lit "1234567890"]) _
                      reach_empty)))).
  - vm_compute. left. reflexivity.
  - exists w'. split; [exact H1|]. rewrite H3.
    vm_compute in H2. destruct pre as [|k pre].
    + injection H2 as <-. reflexivity.
    + injection H2 as <- H2. destruct pre as [|k' pre]; [discriminate|].
      injection H2 as _ H2. destruct pre; discriminate.
Defined.

(** ** More properties: the command handlers *)

Lemma call_getter {A} l (f : record -> A) w r :
  heap w !! l = Some r ->
  call l (self <- get ;; ret (f self)) w = (Return (f r), w).
Proof.
  intros Hl. rewrite (call_Some _ _ _ _ Hl). cbn.
  rewrite list_insert_id by exact Hl. rewrite world_eta. reflexivity.
Qed.

(** X8.  For a name the book does not have, the handlers that need the
    contact ([change], [phone], [add-birthday], [show-birthday]) answer
    "Error: Contact not found" and leave the state unchanged, whatever the
    other arguments are: nothing is validated before the contact is looked
    up. *)
Theorem missing_contact (w : world) (n a b : str) (rest : list str) :
  ~ In n (map fst (data w)) ->
  change_contact (n :: a :: b :: rest) w
  = (Return (Str (lit "Error: Contact not found")), w)
  /\ show_phones (n :: rest) w
     = (Return (Str (lit "Error: Contact not found")), w)
  /\ add_birthday (n :: a :: rest) w
     = (Return (Str (lit "Error: Contact not found")), w)
  /\ show_birthday (n :: rest) w
     = (Return (Str (lit "Error: Contact not found")), w).
Proof.
  intros H. apply dict_get_None in H.
  unfold change_contact, show_phones, add_birthday, show_birthday,
    input_error, bind.
  rewrite !find_eq, H. cbn. repeat split.
Qed.

Lemma missing_contact_witness :
  show_phones [lit "ghost"] empty_world
  = (Return (Str (lit "Error: Contact not found")), empty_world).
Proof.
  apply (missing_contact empty_world (lit "ghost") [] [] []). cbn. tauto.
Defined.

(** X9.  A handler given fewer arguments than it reads answers "Error: "
    followed by its usage text and leaves the state unchanged: fewer than
    two arguments for [add] and [add-birthday], fewer than three for
    [change], none for [phone] and [show-birthday].  The arguments after
    those a handler reads are ignored. *)
Theorem usage_errors (w : world) (args : list str) :
  ((length args < 2)%nat ->
   add_contact args w
   = (Return (Str (lit "Error: Usage: add [name] [phone]")), w))
  /\ ((length args < 3)%nat ->
      change_contact args w
      = (Return (Str (lit "Error: Usage: change [name] [old_phone] [new_phone]")),
         w))
  /\ ((length args < 1)%nat ->
      show_phones args w = (Return (Str (lit "Error: Usage: phone [name]")), w))
  /\ ((length args < 2)%nat ->
      add_birthday args w
      = (Return (Str (lit "Error: Usage: add-birthday [name] [DD.MM.YYYY]")), w))
  /\ ((length args < 1)%nat ->
      show_birthday args w
      = (Return (Str (lit "Error: Usage: show-birthday [name]")), w))
  /\ (forall n p o,
        add_contact (n :: p :: args) w = add_contact [n; p] w
        /\ change_contact (n :: o :: p :: args) w = change_contact [n; o; p] w
        /\ show_phones (n :: args) w = show_phones [n] w
        /\ add_birthday (n :: p :: args) w = add_birthday [n; p] w
        /\ show_birthday (n :: args) w = show_birthday [n] w).
Proof.
  destruct args as [|a [|b [|c rest]]]; cbn [length];
    repeat split; intros; first [lia|reflexivity].
Qed.

Lemma usage_errors_witness :
  add_contact [lit "Jane"] empty_world
  = (Return (Str (lit "Error: Usage: add [name] [phone]")), empty_world).
Proof.
  apply (proj1 (usage_errors empty_world [lit "Jane"])). cbn. lia.
Defined.

Lemma dict_set_new {V} k (v : V) d :
  ~ In k (map fst d) -> dict_set k v d = d ++ [(k, v)].
Proof.
  induction d as [|[k' v'] d IH]; cbn; [reflexivity|].
  intros H. destruct (decide (k = k')) as [->|Hne].
  - exfalso. apply H. now left.
  - f_equal. apply IH. tauto.
Qed.

(** X10.  The add handler with a text that is not a valid phone answers
    "Error: The phone should contain 10 digits".  For a name the book has,
    nothing changes.  For a new name the contact has been created by then: it
    stays in the book, last in its order, with no phone. *)
Theorem add_contact_invalid_phone (w : world) (n phone : str) (rest : list str) :
  n <> [] -> phone <> [] -> ~ valid_phone phone ->
  (forall l r, dict_get n (data w) = Some l -> heap w !! l = Some r ->
     add_contact (n :: phone :: rest) w
     = (Return (Str (lit "Error: The phone should contain 10 digits")), w))
  /\ (dict_get n (data w) = None ->
      add_contact (n :: phone :: rest) w
      = (Return (Str (lit "Error: The phone should contain 10 digits")),
         {| heap := heap w ++ [ {| name := {| value := n |}; phones := [];
                                  birthday := None |} ];
            data := data w ++ [(n, length (heap w))] |})).
Proof.
  intros Hn Hp Hv.
  assert (Hadd : forall self,
            Rec.add_phone phone self
            = (Raise (ValueError (lit "The phone should contain 10 digits")),
               self)).
  { intros self. unfold Rec.add_phone, bind, lift.
    rewrite (Phone_init_invalid _ Hv). reflexivity. }
  split.
  - intros l r Hd Hl. unfold add_contact, input_error, bind.
    rewrite find_eq, Hd. unfold ret at 1. cbn [fst snd].
    destruct phone as [|c phone]; [congruence|].
    rewrite (call_Some _ _ _ _ Hl), Hadd. cbn [fst snd].
    rewrite list_insert_id by exact Hl. rewrite world_eta. reflexivity.
  - intros Hd. unfold add_contact, input_error, bind.
    rewrite find_eq, Hd, new_record_eq.
    unfold Rec.init, Name_init. destruct n as [|c0 n]; [congruence|].
    cbn [obind]. erewrite add_record_Some by apply lookup_snoc.
    unfold ret at 1. cbn [fst snd].
    destruct phone as [|c phone]; [congruence|].
    erewrite call_Some by apply lookup_snoc. rewrite Hadd. cbn.
    rewrite insert_app_r_alt by lia. rewrite Nat.sub_diag. cbn.
    rewrite dict_set_new by (apply dict_get_None; exact Hd). reflexivity.
Qed.

Lemma add_contact_invalid_phone_witness :
  add_contact [lit "Jane"; lit "12x"] empty_world
  = (Return (Str (lit "Error: The phone should contain 10 digits")),
     {| heap := [ {| name := {| value := lit "Jane" |}; phones := [];
                     birthday := None |} ];
        data := [(lit "Jane", O)] |}).
Proof.
  destruct (add_contact_invalid_phone empty_world (lit "Jane") (lit "12x") [])
    as [_ H].
  - discriminate.
  - discriminate.
  - intros [Hlen _]. vm_compute in Hlen. discriminate.
  - apply H. reflexivity.
Defined.

(** X11.  The change handler on a contact of the book: when the contact has
    the old number and the new one is valid, it answers "Phone updated." and
    the first phone with the old number has the new number, in the same
    place; when the contact does not have the old number it answers "Error:
    Phone not found", and when the new number is not valid "Error: The phone
    should contain 10 digits", with the state unchanged in both cases. *)
Theorem change_contact_cases (w : world) (n old_phone new_phone : str)
    (rest : list str) (l : loc) (r : record) :
  dict_get n (data w) = Some l -> heap w !! l = Some r ->
  ((forall p, In p (phones r) -> value p <> old_phone) ->
   change_contact (n :: old_phone :: new_phone :: rest) w
   = (Return (Str (lit "Error: Phone not found")), w))
  /\ ((exists q, In q (phones r) /\ value q = old_phone) ->
      ~ valid_phone new_phone ->
      change_contact (n :: old_phone :: new_phone :: rest) w
      = (Return (Str (lit "Error: The phone should contain 10 digits")), w))
  /\ ((exists q, In q (phones r) /\ value q = old_phone) ->
      valid_phone new_phone ->
      exists pre q post,
        phones r = pre ++ q :: post /\ value q = old_phone
        /\ (forall p, In p pre -> value p <> old_phone)
        /\ change_contact (n :: old_phone :: new_phone :: rest) w
           = (Return (Str (lit "Phone updated.")),
              {| heap := <[l := set_phones
                                  (pre ++ {| value := new_phone |} :: post) r]>
                           (heap w);
                 data := data w |})).
Proof.
  intros Hd Hl.
  assert (Hc : forall o s',
            Rec.edit_phone old_phone new_phone r = (o, s') ->
            change_contact (n :: old_phone :: new_phone :: rest) w
            = (match o with
               | Return _ => Return (Str (lit "Phone updated."))
               | Raise (AttributeError _) =>
                   Return (Str (lit "Error: Contact not found"))
               | Raise (OverflowError m) => Raise (OverflowError m)
               | Raise e => Return (Str (lit "Error: " ++ str_of_exn e))
               end,
               {| heap := <[l := s']> (heap w); data := data w |})).
  { intros o s' He. unfold change_contact, input_error, bind.
    rewrite find_eq, Hd. cbn [call_opt].
    rewrite (call_Some _ _ _ _ Hl), He. cbn [fst snd].
    destruct o as [[]|[]]; reflexivity. }
  split; [|split].
  - intros Habs.
    assert (Hf : Forall (fun p => value p <> old_phone) (phones r)).
    { apply Forall_forall. intros p Hp. apply Habs, list_elem_of_In, Hp. }
    rewrite (Hc _ _ (edit_phone_absent _ _ new_phone Hf)).
    rewrite list_insert_id by exact Hl. rewrite world_eta. reflexivity.
  - intros Hex Hv.
    rewrite (Hc _ _ (proj2 (edit_phone_present r _ _ Hex) Hv)).
    rewrite list_insert_id by exact Hl. rewrite world_eta. reflexivity.
  - intros Hex Hv.
    destruct (proj1 (edit_phone_present r _ _ Hex) Hv)
      as (pre & q & post & H1 & H2 & H3 & H4).
    exists pre, q, post. repeat split; try assumption.
    rewrite (Hc _ _ H4). reflexivity.
Qed.

Lemma change_contact_cases_witness :
  change_contact [lit "Jane"; lit "0000000000"; lit "1111111111"] jane_book
  = (Return (Str (lit "Error: Phone not found")), jane_book).
Proof.
  apply (proj1 (change_contact_cases jane_book (lit "Jane") (lit "0000000000")
                  (lit "1111111111") [] O
                  {| name := {| value := lit "Jane" |};
                     phones := [ {| value := lit "1234567890" |} ];
                     birthday :=
                       Some {| value := {| year := 1990; month := 6; day := 15 |} |} |}
                  eq_refl eq_refl)).
  intros p [<-|[]]. vm_compute. discriminate.
Defined.

(** X12.  The birthday handlers on a contact of the book: [add-birthday]
    with the text DD.MM.YYYY of a date of the calendar answers "Birthday
    added." and sets the birthday of that contact only, and [show-birthday]
    then answers with the date as [strftime] prints it, which is the text
    that was given when the year has four digits; with a text the constructor
    refuses, [add-birthday] answers "Error: Invalid date format. Use
    DD.MM.YYYY" and changes nothing. *)
Theorem birthday_handlers (w : world) (n : str) (rest rest' : list str)
    (l : loc) (r : record) :
  dict_get n (data w) = Some l -> heap w !! l = Some r ->
  (forall d, date_exists d = true ->
     let w' := {| heap := <[l := set_birthday (Some {| value := d |}) r]> (heap w);
                  data := data w |} in
     add_birthday (n :: DDMMYYYY d :: rest) w
     = (Return (Str (lit "Birthday added.")), w')
     /\ show_birthday (n :: rest') w'
        = (Return (Str (Datetime.strftime d)), w')
     /\ (1000 <= year d -> Datetime.strftime d = DDMMYYYY d))
  /\ (forall s,
        Birthday_init s
        = Raise (ValueError (lit "Invalid date format. Use DD.MM.YYYY")) ->
        add_birthday (n :: s :: rest) w
        = (Return (Str (lit "Error: Invalid date format. Use DD.MM.YYYY")), w)).
Proof.
  intros Hd Hl. split.
  - intros d He w'. subst w'. split; [|split].
    + unfold add_birthday, input_error, bind. rewrite find_eq, Hd.
      cbn [call_opt]. rewrite (call_Some _ _ _ _ Hl).
      unfold Rec.add_birthday, bind, lift, Birthday_init.
      rewrite strptime_DDMMYYYY by exact He. reflexivity.
    + unfold show_birthday, input_error, bind. rewrite find_eq.
      cbn [data]. rewrite Hd. cbn [call_opt].
      rewrite (call_getter l birthday _
                 (set_birthday (Some {| value := d |}) r)).
      * reflexivity.
      * cbn [heap]. apply list_lookup_insert_eq. eapply lookup_lt_Some.
        exact Hl.
    + intros Hy. apply strftime_DDMMYYYY; assumption.
  - intros s Hs. unfold add_birthday, input_error, bind. rewrite find_eq, Hd.
    cbn [call_opt]. rewrite (call_Some _ _ _ _ Hl).
    unfold Rec.add_birthday, bind, lift. rewrite Hs. cbn.
    rewrite list_insert_id by exact Hl. rewrite world_eta. reflexivity.
Qed.

Lemma birthday_handlers_witness :
  exists w',
    add_birthday [lit "Jane"; lit "12.06.2024"] jane_book
    = (Return (Str (lit "Birthday added.")), w')
    /\ show_birthday [lit "Jane"] w' = (Return (Str (lit "12.06.2024")), w').
Proof.
  destruct (proj1 (birthday_handlers jane_book (lit "Jane") [] [] O
                     {| name := {| value := lit "Jane" |};
                        phones := [ {| value := lit "1234567890" |} ];
                        birthday :=
                          Some {| value := {| year := 1990; month := 6; day := 15 |} |} |}
                     eq_refl eq_refl)
              {| year := 2024; month := 6; day := 12 |})
    as (H1 & H2 & _).
  - vm_compute. reflexivity.
  - eexists. split; [exact H1|exact H2].
Defined.

Lemma entries_of_get {V} k (v : V) d tl :
  entries_of k d = (k, v) :: tl -> dict_get k d = Some v.
Proof.
  unfold entries_of. induction d as [|[k' v'] d IH]; cbn; [discriminate|].
  destruct (decide (k = k')) as [->|Hne].
  - rewrite bool_decide_eq_true_2 by reflexivity. intros [= ->]. reflexivity.
  - rewrite bool_decide_eq_false_2 by congruence. exact IH.
Qed.

(** X13.  After two add commands for a new name with two valid phones, the
    phone handler lists both numbers in the order they were given, joined
    by "; ", and changes nothing. *)
Theorem add_then_phone (w : world) (n p1 p2 : str) (rest : list str) :
  reachable w -> n <> [] -> ~ In n (map fst (data w)) ->
  valid_phone p1 -> valid_phone p2 ->
  let w2 := after (add_contact [n; p2]) (after (add_contact [n; p1]) w) in
  show_phones (n :: rest) w2 = (Return (Str (p1 ++ lit "; " ++ p2)), w2).
Proof.
  intros Hr Hn Hfresh Hp1 Hp2 w2. subst w2.
  destruct (add_contact_twice_from w n p1 p2 (reachable_refs_ok _ Hr) Hn Hp1 Hp2)
    as (l & r & He & Hl & Hph & _).
  apply dict_get_None in Hfresh. rewrite Hfresh in Hph. cbn [app] in Hph.
  assert (G : forall w2,
            entries_of n (data w2) = [(n, l)] -> heap w2 !! l = Some r ->
            show_phones (n :: rest) w2
            = (Return (Str (p1 ++ lit "; " ++ p2)), w2)).
  { intros w2 He2 Hl2.
    assert (Hd : dict_get n (data w2) = Some l)
      by (eapply entries_of_get; exact He2).
    unfold show_phones, input_error, bind. rewrite find_eq, Hd.
    cbn [call_opt]. rewrite (call_getter l phones _ r); [|exact Hl2].
    rewrite Hph. reflexivity. }
  exact (G _ He Hl).
Qed.

Lemma add_then_phone_witness :
  show_phones [lit "Jane"]
    (after (add_contact [lit "Jane"; lit "0987654321"])
       (after (add_contact [lit "Jane"; lit "1234567890"]) empty_world))
  = (Return (Str (lit "1234567890; 0987654321")),
     after (add_contact [lit "Jane"; lit "0987654321"])
       (after (add_contact [lit "Jane"; lit "1234567890"]) empty_world)).
Proof.
  apply (add_then_phone empty_world (lit "Jane") (lit "1234567890")
           (lit "0987654321") []).
  - apply reach_empty.
  - discriminate.
  - cbn. tauto.
  - split; [reflexivity|]. apply all_decimal_forallb. reflexivity.
  - split; [reflexivity|]. apply all_decimal_forallb. reflexivity.
Defined.

(** ** More properties: the handlers always answer *)

Section Gentle.
Context {S : Type}.

Lemma gentle_ret {A} (Q : A -> Prop) a : Q a -> gentle Q (@ret S A a).
Proof. intros H s. exact H. Qed.

Lemma gentle_raise {A} (Q : A -> Prop) e : caught e -> gentle Q (@raise S A e).
Proof. intros H s. exact H. Qed.

Lemma gentle_lift {A} (Q : A -> Prop) (o : outcome A) :
  match o with Return a => Q a | Raise e => caught e end ->
  gentle Q (@lift S A o).
Proof. intros H s. exact H. Qed.

Lemma gentle_get : gentle (fun _ => True) (@get S).
Proof. intros s. exact I. Qed.

Lemma gentle_bind {A B} (Q : B -> Prop) (m : SE S A) (f : A -> SE S B) :
  gentle (fun _ => True) m -> (forall a, gentle Q (f a)) ->
  gentle Q (bind m f).
Proof.
  intros Hm Hf s. unfold bind. specialize (Hm s).
  destruct (m s) as [[a|e] s']; cbn in *; [apply Hf|exact Hm].
Qed.

Lemma input_error_answers (f : SE S pyval) :
  gentle is_text f ->
  forall s, exists t, input_error f s = (Return (Str t), snd (f s)).
Proof.
  intros Hf s. unfold input_error. specialize (Hf s).
  destruct (f s) as [[[t|items]|[]] s']; cbn in *; try contradiction;
    eexists; reflexivity.
Qed.

End Gentle.

Lemma gentle_call {A} (Q : A -> Prop) l (m : SE record A) :
  gentle Q m -> gentle Q (call l m).
Proof.
  intros Hm w. destruct (heap w !! l) as [self|] eqn:Hl.
  - rewrite (call_Some _ _ _ _ Hl). exact (Hm self).
  - rewrite (call_None _ _ _ Hl). exact I.
Qed.

Lemma gentle_call_opt {A} (Q : A -> Prop) ol (m : SE record A) :
  gentle Q m -> gentle Q (call_opt ol m).
Proof.
  intros Hm. destruct ol; [apply gentle_call, Hm|apply gentle_raise; exact I].
Qed.

Lemma Phone_init_caught s :
  match Phone_init s with
  | Return _ => True
  | Raise e => caught e
  end.
Proof. unfold Phone_init. destruct (re_fullmatch phone_re s); exact I. Qed.

Lemma gentle_add_phone phone : gentle (fun _ => True) (Rec.add_phone phone).
Proof.
  intros self. unfold Rec.add_phone, bind, lift.
  pose proof (Phone_init_caught phone) as H.
  destruct (Phone_init phone); [exact I|exact H].
Qed.

Lemma gentle_edit_phone o n : gentle (fun _ => True) (Rec.edit_phone o n).
Proof.
  intros self. unfold Rec.edit_phone, Rec.find_phone, bind, get, ret, lift,
    raise, put.
  cbn [phones fst snd].
  destruct (Rec.find_phone_in (phones self) o); [|exact I].
  pose proof (Phone_init_caught n) as H.
  destruct (Phone_init n); [exact I|exact H].
Qed.

Lemma gentle_add_birthday b : gentle (fun _ => True) (Rec.add_birthday b).
Proof.
  intros self. unfold Rec.add_birthday, bind, lift, get, put.
  destruct (Birthday_init_cases b) as [(d & _ & -> & _)| ->]; exact I.
Qed.

Lemma gentle_getter {A} (f : record -> A) :
  gentle (fun _ => True) (self <- get ;; ret (f self)).
Proof. intros self. exact I. Qed.

Lemma gentle_find n : gentle (fun _ => True) (Book.find n).
Proof. intros w. exact I. Qed.

Lemma gentle_new_record n : gentle (fun _ => True) (new_record n).
Proof.
  intros w. rewrite new_record_eq. unfold Rec.init, Name_init.
  destruct n; exact I.
Qed.

Lemma gentle_add_record l : gentle (fun _ => True) (Book.add_record l).
Proof.
  intros w. destruct (heap w !! l) as [r|] eqn:Hl.
  - rewrite (add_record_Some _ _ _ Hl). exact I.
  - rewrite (add_record_None _ _ Hl). exact I.
Qed.

Lemma gentle_upcoming t : gentle (fun _ => True) (Book.get_upcoming_birthdays t).
Proof.
  intros w. rewrite get_upcoming_eq. cbn.
  destruct (upcoming_loop_spec t (Book.values w) []) as [Hok Hbad].
  destruct (forallb (buildable t) (Book.values w)).
  - rewrite (Hok eq_refl). exact I.
  - destruct (Hbad eq_refl) as (e & -> & (msg & ->) & _). exact I.
Qed.

Ltac gentle_step :=
  first
    [ apply gentle_ret; exact I
    | apply gentle_raise; exact I
    | apply gentle_get | apply gentle_find | apply gentle_new_record
    | apply gentle_add_record | apply gentle_upcoming
    | apply gentle_call; first
        [ apply gentle_add_phone | apply gentle_edit_phone
        | apply gentle_add_birthday | apply gentle_getter ]
    | apply gentle_call_opt; first
        [ apply gentle_add_phone | apply gentle_edit_phone
        | apply gentle_add_birthday | apply gentle_getter ]
    | apply gentle_bind; [|intros ?]
    | match goal with
      | |- gentle _ (match ?x with _ => _ end) => destruct x
      end ].

Section Quiet.
Context {S : Type}.

Lemma quiet_ret {A} (a : A) : quiet (@ret S A a).
Proof. intros s. reflexivity. Qed.

Lemma quiet_raise {A} e : quiet (@raise S A e).
Proof. intros s. reflexivity. Qed.

Lemma quiet_get : quiet (@get S).
Proof. intros s. reflexivity. Qed.

Lemma quiet_bind {A B} (m : SE S A) (f : A -> SE S B) :
  quiet m -> (forall a, quiet (f a)) -> quiet (bind m f).
Proof.
  intros Hm Hf s. rewrite after_bind, Hm.
  destruct (fst (m s)); [apply Hf|reflexivity].
Qed.

Lemma quiet_input_error (f : SE S pyval) : quiet f -> quiet (input_error f).
Proof. intros Hf s. rewrite after_input_error. apply Hf. Qed.

End Quiet.

Lemma quiet_find n : quiet (Book.find n).
Proof. intros w. reflexivity. Qed.

Lemma quiet_upcoming t : quiet (Book.get_upcoming_birthdays t).
Proof. intros w. reflexivity. Qed.

Lemma quiet_call_opt_getter {A} ol (f : record -> A) :
  quiet (call_opt ol (self <- get ;; ret (f self))).
Proof.
  intros w. destruct ol as [l|]; [|reflexivity]. cbn [call_opt].
  destruct (heap w !! l) as [r|] eqn:Hl.
  - rewrite (call_getter _ _ _ _ Hl). reflexivity.
  - rewrite (call_None _ _ _ Hl). reflexivity.
Qed.

Ltac quiet_step :=
  first
    [ apply quiet_ret | apply quiet_raise | apply quiet_get | apply quiet_find
    | apply quiet_upcoming | apply quiet_call_opt_getter
    | apply quiet_input_error
    | apply quiet_bind; [|intros ?]
    | match goal with
      | |- quiet (match ?x with _ => _ end) => destruct x
      end ].

Lemma answers_any (f : SE world pyval) w :
  gentle is_text f -> exists t w', input_error f w = (Return (Str t), w').
Proof.
  intros Hf. destruct (input_error_answers f Hf w) as [t Ht].
  eexists _, _. exact Ht.
Qed.

Lemma answers_quiet (f : SE world pyval) w :
  gentle is_text f -> quiet f ->
  exists t, input_error f w = (Return (Str t), w).
Proof.
  intros Hg Hs. destruct (input_error_answers f Hg w) as [t Ht].
  exists t. rewrite Ht, Hs. reflexivity.
Qed.

Lemma add_contact_answers args w :
  exists t w', add_contact args w = (Return (Str t), w').
Proof. apply answers_any. repeat gentle_step. Qed.

Lemma change_contact_answers args w :
  exists t w', change_contact args w = (Return (Str t), w').
Proof. apply answers_any. repeat gentle_step. Qed.

Lemma add_birthday_answers args w :
  exists t w', add_birthday args w = (Return (Str t), w').
Proof. apply answers_any. repeat gentle_step. Qed.

Lemma show_phones_answers args w :
  exists t, show_phones args w = (Return (Str t), w).
Proof. apply answers_quiet; [repeat gentle_step|repeat quiet_step]. Qed.

Lemma show_all_answers args w :
  exists t, show_all args w = (Return (Str t), w).
Proof. apply answers_quiet; [repeat gentle_step|repeat quiet_step]. Qed.

Lemma show_birthday_answers args w :
  exists t, show_birthday args w = (Return (Str t), w).
Proof. apply answers_quiet; [repeat gentle_step|repeat quiet_step]. Qed.

Lemma birthdays_answers today args w :
  exists t, birthdays today args w = (Return (Str t), w).
Proof. apply answers_quiet; [repeat gentle_step|repeat quiet_step]. Qed.

(** X14.  No handler raises, whatever the arguments and the state: each one
    returns a text.  The handlers that only show something ([phone], [all],
    [show-birthday], [birthdays]) leave the state unchanged. *)
Theorem handlers_always_answer (today : date) (args : list str) (w : world) :
  (exists t w', add_contact args w = (Return (Str t), w'))
  /\ (exists t w', change_contact args w = (Return (Str t), w'))
  /\ (exists t w', add_birthday args w = (Return (Str t), w'))
  /\ (exists t, show_phones args w = (Return (Str t), w))
  /\ (exists t, show_all args w = (Return (Str t), w))
  /\ (exists t, show_birthday args w = (Return (Str t), w))
  /\ (exists t, birthdays today args w = (Return (Str t), w)).
Proof.
  split; [apply add_contact_answers|].
  split; [apply change_contact_answers|].
  split; [apply add_birthday_answers|].
  split; [apply show_phones_answers|].
  split; [apply show_all_answers|].
  split; [apply show_birthday_answers|apply birthdays_answers].
Qed.

(** ** More properties: the shape of the reachable states *)

Lemma keeps_add_phone phone : keeps (Rec.add_phone phone).
Proof.
  intros r (Hn & Hok & Hb). split.
  - split; [|split].
    + destruct (add_phone_cases phone r) as [(p & _ & _ & -> & _)|(e & ->)];
        exact Hn.
    + apply add_phone_ok, Hok.
    + destruct (add_phone_cases phone r) as [(p & _ & _ & -> & _)|(e & ->)];
        exact Hb.
  - destruct (add_phone_cases phone r) as [(p & _ & _ & -> & _)|(e & ->)];
      reflexivity.
Qed.

Lemma keeps_remove_phone phone : keeps (Rec.remove_phone phone).
Proof.
  intros r (Hn & Hok & Hb). split.
  - split; [|split].
    + destruct (remove_phone_cases phone r) as [(i & _ & ->)|(e & ->)];
        exact Hn.
    + apply remove_phone_ok, Hok.
    + destruct (remove_phone_cases phone r) as [(i & _ & ->)|(e & ->)];
        exact Hb.
  - destruct (remove_phone_cases phone r) as [(i & _ & ->)|(e & ->)];
      reflexivity.
Qed.

Lemma keeps_edit_phone o n : keeps (Rec.edit_phone o n).
Proof.
  intros r (Hn & Hok & Hb). split.
  - split; [|split].
    + destruct (edit_phone_cases o n r) as [(i & _ & _ & ->)|(e & ->)];
        exact Hn.
    + apply edit_phone_ok, Hok.
    + destruct (edit_phone_cases o n r) as [(i & _ & _ & ->)|(e & ->)];
        exact Hb.
  - destruct (edit_phone_cases o n r) as [(i & _ & _ & ->)|(e & ->)];
      reflexivity.
Qed.

Lemma keeps_add_birthday b : keeps (Rec.add_birthday b).
Proof.
  intros r (Hn & Hok & Hb). unfold Rec.add_birthday, bind, lift, get, put.
  destruct (Birthday_init_cases b) as [(d & _ & -> & Hd)| ->]; cbn.
  - split; [|reflexivity]. split; [exact Hn|]. split; [exact Hok|].
    cbn. intros b' [= <-]. exact Hd.
  - split; [|reflexivity]. split; [exact Hn|]. split; assumption.
Qed.

Lemma keeps_getter {A} (f : record -> A) : keeps (self <- get ;; ret (f self)).
Proof. intros r H. split; [exact H|reflexivity]. Qed.

Section Shape.
Variable P : world -> Prop.
Hypothesis shape_new_record : forall n, preserves P (new_record n).
Hypothesis shape_call : forall A l (m : SE record A),
  keeps m -> preserves P (call l m).
Hypothesis shape_add_record : forall l, preserves P (Book.add_record l).
Hypothesis shape_delete : forall n, preserves P (Book.delete n).

Lemma shape_call_opt {A} ol (m : SE record A) :
  keeps m -> preserves P (call_opt ol m).
Proof.
  intros Hm. destruct ol; [apply shape_call, Hm|apply pres_raise].
Qed.

Ltac shape_step :=
  first
    [ apply pres_ret | apply pres_raise | apply pres_lift | apply pres_get
    | apply pres_find | apply pres_upcoming | apply shape_new_record
    | apply shape_add_record | apply shape_delete
    | apply shape_call; first
        [ apply keeps_add_phone | apply keeps_edit_phone
        | apply keeps_remove_phone | apply keeps_add_birthday
        | apply keeps_getter ]
    | apply shape_call_opt; first
        [ apply keeps_add_phone | apply keeps_edit_phone
        | apply keeps_remove_phone | apply keeps_add_birthday
        | apply keeps_getter ]
    | apply pres_input_error
    | apply pres_bind; [|intros ?]
    | match goal with
      | |- preserves _ (match ?x with _ => _ end) => destruct x
      end ].

Lemma shape_perform a w : P w -> P (perform a w).
Proof.
  destruct a; cbn [perform].
  - apply shape_new_record.
  - apply shape_call, keeps_add_phone.
  - apply shape_call, keeps_remove_phone.
  - apply shape_call, keeps_edit_phone.
  - apply shape_call, keeps_add_birthday.
  - apply shape_add_record.
  - apply shape_delete.
  - unfold add_contact. repeat shape_step.
  - unfold change_contact. repeat shape_step.
  - unfold add_birthday. repeat shape_step.
  - unfold main_turn.
    apply pres_bind; [apply pres_parse_input|intros parsed].
    apply pres_bind; [apply pres_lift|intros ca].
    repeat match goal with
           | |- preserves _ (if ?b then _ else _) => destruct b
           end;
      try (apply pres_bind; [|intros ?]);
      first [ apply pres_ret | apply pres_get
            | unfold add_contact; repeat shape_step
            | unfold change_contact; repeat shape_step
            | unfold show_phones; repeat shape_step
            | unfold show_all; repeat shape_step
            | unfold add_birthday; repeat shape_step
            | unfold show_birthday; repeat shape_step
            | unfold birthdays; repeat shape_step ].
Qed.

Lemma reachable_shape w : P empty_world -> reachable w -> P w.
Proof.
  intros H0 Hr. induction Hr as [|a w Hr IH]; [exact H0|].
  apply shape_perform, IH.
Qed.

End Shape.

Lemma world_wf_new_record n : preserves world_wf (new_record n).
Proof.
  intros w (Hh & Hnd & Hd). unfold after. rewrite new_record_eq.
  destruct (Rec.init n) as [r|e] eqn:Hr; [|repeat split; assumption].
  cbn. split; [|split; [exact Hnd|]].
  - apply Forall_app. split; [exact Hh|]. constructor; [|constructor].
    unfold Rec.init, Name_init in Hr. destruct n as [|c n]; [discriminate|].
    injection Hr as <-. split; [discriminate|]. split; [constructor|].
    intros b [=].
  - cbn. eapply Forall_impl; [exact Hd|]. intros kv (r' & Hl & Hn).
    exists r'. split; [|exact Hn]. cbn.
    rewrite lookup_app_l by (eapply lookup_lt_Some; exact Hl). exact Hl.
Qed.

Lemma world_wf_call A l (m : SE record A) :
  keeps m -> preserves world_wf (call l m).
Proof.
  intros Hm w (Hh & Hnd & Hd). unfold after.
  destruct (heap w !! l) as [self|] eqn:Hl.
  2:{ rewrite (call_None _ _ _ Hl). repeat split; assumption. }
  rewrite (call_Some _ _ _ _ Hl). cbn.
  assert (Hself : record_wf self) by (eapply Forall_lookup_1; eassumption).
  destruct (Hm self Hself) as [Hwf Hname].
  split; [|split; [exact Hnd|]].
  - cbn. apply Forall_insert; assumption.
  - cbn. eapply Forall_impl; [exact Hd|]. intros kv (r' & Hl' & Hn).
    destruct (decide (l = snd kv)) as [Heq|Hne].
    + exists (snd (m self)). rewrite <- Heq in *. split.
      * apply list_lookup_insert_eq. eapply lookup_lt_Some. exact Hl.
      * rewrite Hname. unfold loc in *. rewrite Hl in Hl'.
        injection Hl' as ->. exact Hn.
    + exists r'. split; [|exact Hn].
      rewrite list_lookup_insert_ne by exact Hne. exact Hl'.
Qed.

Lemma world_wf_add_record l : preserves world_wf (Book.add_record l).
Proof.
  intros w (Hh & Hnd & Hd). unfold after.
  destruct (heap w !! l) as [r|] eqn:Hl.
  2:{ rewrite (add_record_None _ _ Hl). repeat split; assumption. }
  rewrite (add_record_Some _ _ _ Hl). cbn.
  split; [exact Hh|]. split.
  - cbn. apply NoDup_dict_set. exact Hnd.
  - cbn. apply Forall_forall. intros kv Hin. apply list_elem_of_In in Hin.
    apply values_dict_set_In in Hin as [Hin| ->].
    + rewrite Forall_forall in Hd. apply Hd, list_elem_of_In, Hin.
    + exists r. split; [exact Hl|reflexivity].
Qed.

Lemma world_wf_delete n : preserves world_wf (Book.delete n).
Proof.
  intros w (Hh & Hnd & Hd). unfold after. rewrite delete_eq.
  destruct (dict_get n (data w)); [|repeat split; assumption].
  cbn. split; [exact Hh|]. split.
  - cbn. apply NoDup_dict_del. exact Hnd.
  - cbn. apply Forall_forall. intros kv Hin. apply list_elem_of_In in Hin.
    apply dict_del_In in Hin. rewrite Forall_forall in Hd.
    apply Hd, list_elem_of_In, Hin.
Qed.

Lemma reachable_world_wf w : reachable w -> world_wf w.
Proof.
  apply reachable_shape.
  - apply world_wf_new_record.
  - apply world_wf_call.
  - apply world_wf_add_record.
  - apply world_wf_delete.
  - split; [constructor|]. split; constructor.
Qed.

(** X15.  In every reachable state the book has each name once, each name
    of the book refers to a record that exists and has that name, no record
    has an empty name, and every birthday that is set is a date of the
    calendar. *)
Theorem reachable_state_shape (w : world) :
  reachable w ->
  List.NoDup (map fst (data w))
  /\ (forall n l, In (n, l) (data w) ->
        exists r, heap w !! l = Some r /\ value (name r) = n)
  /\ (forall r, In r (heap w) ->
        value (name r) <> []
        /\ forall b, birthday r = Some b -> date_exists (value b) = true).
Proof.
  intros Hr. apply reachable_world_wf in Hr as (Hh & Hnd & Hd).
  split; [exact Hnd|]. split.
  - intros n l Hin. rewrite Forall_forall in Hd.
    exact (Hd (n, l) (proj2 (list_elem_of_In _ _) Hin)).
  - intros r Hin. rewrite Forall_forall in Hh.
    destruct (Hh r (proj2 (list_elem_of_In _ _) Hin)) as (Hn & _ & Hb).
    split; assumption.
Qed.

Lemma reachable_state_shape_witness :
  exists r, heap jane_book !! O = Some r /\ value (name r) = lit "Jane".
Proof.
  destruct (reachable_state_shape jane_book) as (_ & H & _).
  - exact (reach_step (DoAddBirthdayCmd [lit "Jane"; lit "15.06.1990"]) _
             (reach_step (DoAddContact [lit "Jane"; lit "1234567890"]) _
                reach_empty)).
  - apply (H (lit "Jane") O). vm_compute. left. reflexivity.
Defined.

(** ** More properties: words of a line *)








(** ** More properties: one turn of the loop *)







(** ** More properties: the dates of the upcoming birthdays *)

Lemma day_of_year_lt y m1 d1 m2 d2 :
  1 <= m1 <= 12 -> 1 <= d1 <= Datetime.days_in_month y m1 ->
  1 <= m2 <= 12 -> 1 <= d2 <= Datetime.days_in_month y m2 ->
  (m1 < m2 \/ (m1 = m2 /\ d1 < d2))
  <-> Datetime.days_before_month y m1 + d1 < Datetime.days_before_month y m2 + d2.
Proof.
  intros Hm1 Hd1 Hm2 Hd2.
  unfold Datetime.days_before_month, Datetime.days_in_month in *.
  by_month Hm1; by_month Hm2; cbn in *; destruct (Datetime.is_leap y);
    cbn in *; lia.
Qed.

(** The order of two dates of the calendar is the order of their day
    numbers. *)
Lemma lt_toordinal a b :
  date_exists a = true -> date_exists b = true ->
  Datetime.lt a b = true <-> Datetime.toordinal a < Datetime.toordinal b.
Proof.
  intros Ha Hb.
  apply date_exists_iff in Ha as (Hya & Hma & Hda).
  apply date_exists_iff in Hb as (Hyb & Hmb & Hdb).
  pose proof (day_of_year_bounds _ _ _ Hma Hda) as Ba.
  pose proof (day_of_year_bounds _ _ _ Hmb Hdb) as Bb.
  unfold Datetime.lt, Datetime.toordinal, Datetime.ymd2ord.
  rewrite orb_true_iff, andb_true_iff, orb_true_iff, andb_true_iff,
    !Z.ltb_lt, !Z.eqb_eq.
  destruct (Z.lt_trichotomy (year a) (year b)) as [Hlt|[Heq|Hgt]].
  - pose proof (days_before_year_succ (year a)) as Hs.
    pose proof (days_before_year_mono (year a + 1) (year b) ltac:(lia)) as Hmn.
    split; [lia|]. intros _. left. exact Hlt.
  - rewrite Heq in *.
    pose proof (day_of_year_lt (year b) _ _ _ _ Hma Hda Hmb Hdb) as Hd.
    split.
    + intros [H|[_ H]]; [lia|]. apply Hd in H. lia.
    + intros H. right. split; [reflexivity|]. apply Hd. lia.
  - pose proof (days_before_year_succ (year b)) as Hs.
    pose proof (days_before_year_mono (year b + 1) (year a) ltac:(lia)) as Hmn.
    split; [lia|]. intros H. exfalso. lia.
Qed.

(** The candidate is never before today. *)
Lemma candidate_ahead today b :
  date_exists today = true -> candidate_exists today b = true ->
  date_exists (candidate today b) = true
  /\ 0 <= Datetime.days_between (candidate today b) today.
Proof.
  intros Ht Hc. unfold candidate_exists in Hc.
  apply andb_true_iff in Hc as [E1 E2]. split; [exact E2|].
  unfold candidate, Datetime.days_between in *.
  destruct (Datetime.lt (same_day_in (year today) b) today) eqn:Hlt.
  - apply date_exists_iff in E2 as (_ & Hm & Hd).
    apply date_exists_iff in Ht as (_ & Hmt & Hdt).
    pose proof (day_of_year_bounds _ _ _ Hm Hd) as B1.
    pose proof (day_of_year_bounds _ _ _ Hmt Hdt) as B2.
    pose proof (days_before_year_succ (year today)) as Hs.
    unfold Datetime.toordinal, Datetime.ymd2ord.
    cbn [same_day_in year month day] in *. lia.
  - assert (H : ~ Datetime.toordinal (same_day_in (year today) b)
                  < Datetime.toordinal today).
    { intros H. apply (lt_toordinal _ _ E1 Ht) in H. congruence. }
    lia.
Qed.

(** The congratulation date is a working day, the candidate or one of the
    two days after it. *)
Lemma congratulation_facts c :
  date_exists c = true ->
  date_exists (congratulation c) = true
  /\ Datetime.toordinal c <= Datetime.toordinal (congratulation c)
     <= Datetime.toordinal c + 2
  /\ 0 <= Datetime.weekday (congratulation c) < 5.
Proof.
  intros H. pose proof (toordinal_bounds c H) as Hb.
  unfold Datetime.MAXORDINAL in Hb. unfold congratulation.
  destruct (Z.eqb_spec (Datetime.weekday c) 5) as [E5|E5];
    [|destruct (Z.eqb_spec (Datetime.weekday c) 6) as [E6|E6]].
  - split; [|split].
    + apply fromordinal_exists. unfold Datetime.MAXORDINAL, Datetime.weekday in *.
      divmod.
    + rewrite later_toordinal. lia.
    + unfold Datetime.weekday in *. rewrite later_toordinal. divmod.
  - split; [|split].
    + apply fromordinal_exists. unfold Datetime.MAXORDINAL, Datetime.weekday in *.
      divmod.
    + rewrite later_toordinal. lia.
    + unfold Datetime.weekday in *. rewrite later_toordinal. divmod.
  - split; [exact H|]. split; [lia|].
    unfold Datetime.weekday in *. divmod.
Qed.

(** X18.  Whenever [get_upcoming_birthdays] returns on a day of the
    calendar, every entry of its list carries the name of a record of the
    book and the text of a date that is a working day (Monday to Friday)
    and lies from today to nine days after today: a date that has passed
    and a Saturday or Sunday are never shown. *)
Theorem upcoming_dates_ahead (w : world) (today : date) (res : list entry) :
  date_exists today = true ->
  fst (Book.get_upcoming_birthdays today w) = Return res ->
  forall e, In e res ->
    exists r d,
      In r (Book.values w)
      /\ entry_name e = value (name r)
      /\ congratulation_date e = Datetime.strftime d
      /\ date_exists d = true
      /\ 0 <= Datetime.days_between d today <= 9
      /\ 0 <= Datetime.weekday d < 5.
Proof.
  intros Ht Hres e He. rewrite get_upcoming_eq in Hres. cbn [fst] in Hres.
  destruct (upcoming_loop_spec today (Book.values w) []) as [Hok Hbad].
  destruct (forallb (buildable today) (Book.values w)) eqn:Hb.
  2:{ destruct (Hbad eq_refl) as (x & Hx & _). congruence. }
  rewrite (Hok eq_refl) in Hres. cbn [app] in Hres. injection Hres as <-.
  apply list_elem_of_In, list_elem_of_omap in He as (r & Hr & Hentry).
  apply list_elem_of_In in Hr.
  rewrite forallb_forall in Hb. pose proof (Hb r Hr) as Hbuild.
  unfold buildable in Hbuild. unfold upcoming_entry in Hentry.
  destruct (birthday r) as [b|]; [|discriminate].
  destruct (in_window today (value b)) eqn:Hw; [|discriminate].
  injection Hentry as <-.
  destruct (candidate_ahead today (value b) Ht Hbuild) as [Hc H0].
  destruct (congratulation_facts _ Hc) as (Hd & Hord & Hwd).
  exists r, (congratulation (candidate today (value b))).
  split; [exact Hr|]. split; [reflexivity|]. split; [reflexivity|].
  split; [exact Hd|]. split; [|exact Hwd].
  unfold in_window in Hw. apply andb_true_iff in Hw as [_ H7].
  apply Z.leb_le in H7. unfold Datetime.days_between in *. lia.
Qed.

Lemma upcoming_dates_ahead_witness :
  exists r d,
    In r (Book.values jane_book)
    /\ lit "Jane" = value (name r)
    /\ lit "17.06.2024" = Datetime.strftime d
    /\ 0 <= Datetime.days_between d {| year := 2024; month := 6; day := 10 |} <= 9.
Proof.
  destruct (upcoming_dates_ahead jane_book
              {| year := 2024; month := 6; day := 10 |}
              [ {| entry_name := lit "Jane";
                   congratulation_date := lit "17.06.2024" |} ])
    with (e := {| entry_name := lit "Jane";
                  congratulation_date := lit "17.06.2024" |})
    as (r & d & H1 & H2 & H3 & _ & H5 & _).
  - vm_compute. reflexivity.
  - vm_compute. reflexivity.
  - left. reflexivity.
  - exists r, d. split; [exact H1|]. split; [exact H2|].
    split; [exact H3|exact H5].
Defined.
